(** * unifi-gate-opener: the presence-to-action decision engine

    A shallow embedding of the Go sources

      - [internal/config/config.go]   (device list of the configuration),
      - [internal/gate/controller.go] (the actuator client),
      - [internal/handlers/web.go]    (poller, per-device state machine,
                                       cooldown-gated trigger, re-authentication
                                       backoff, device CRUD handlers),

    followed by the properties of the specification that are settled on it.

    Conventions of the embedding.

    - [time.Time] is an integer number of nanoseconds on one time line
      (Unix epoch = 0); [time.Duration] is an [int64] number of nanoseconds,
      with Go's wrap-around on multiplication and the saturation of
      [Time.Sub] written out.
    - Go strings are [string]s; [strings.ToUpper], [strings.ToLower] act on
      the ASCII letters (hardware addresses are ASCII).
    - [map[string]*DeviceState] is a [gmap string DeviceState]; every entry
      of the Go map owns its own record, so the pointer is modelled by
      writing the updated record back under its key.
    - Everything outside the process (wall clock, HTTP to the gate, login and
      client list of the UniFi controller, [SaveConfig]) is an oracle of the
      environment [Env], indexed by the number of earlier calls; calls to the
      database that write are recorded in the [World].  Lines written to the
      process logger (logrus) are not modelled. *)

From Stdlib Require Import ZArith Lia Bool List Ascii String DecimalString.
From stdpp Require Import base option list gmap strings.

Local Open Scope Z_scope.

(** ** Integers, durations and instants *)

Definition wrap64 (z : Z) : Z := (z + 2 ^ 63) mod 2 ^ 64 - 2 ^ 63.

(** [x << s] on [int64] with an unsigned shift count. *)
Definition shl64 (x s : Z) : Z :=
  if s <? 64 then wrap64 (Z.shiftl x s) else 0.

(** [uint(n)] for an [int] n. *)
Definition uint_of_int (n : Z) : Z := n mod 2 ^ 64.

Module time.

Definition minDuration : Z := - 2 ^ 63.
Definition maxDuration : Z := 2 ^ 63 - 1.

Definition Nanosecond : Z := 1.
Definition Second : Z := 1000000000.
Definition Minute : Z := 60 * Second.

(** [time.Time{}]: January 1, year 1, 00:00:00 UTC. *)
Definition zero : Z := -62135596800 * Second.

(** [t.Sub(u)]: the difference, saturated to the range of a Duration. *)
Definition Sub (t u : Z) : Z :=
  if t - u <? minDuration then minDuration
  else if maxDuration <? t - u then maxDuration
  else t - u.

(** [d1 * d2] on Durations. *)
Definition Mul (d1 d2 : Z) : Z := wrap64 (d1 * d2).

End time.

(** ** Strings *)

Module strings.

Definition upper_ascii (c : ascii) : ascii :=
  let n := nat_of_ascii c in
  if (Nat.leb 97 n && Nat.leb n 122)%bool then ascii_of_nat (n - 32) else c.

Definition lower_ascii (c : ascii) : ascii :=
  let n := nat_of_ascii c in
  if (Nat.leb 65 n && Nat.leb n 90)%bool then ascii_of_nat (n + 32) else c.

Fixpoint map_string (f : ascii → ascii) (s : string) : string :=
  match s with
  | EmptyString => EmptyString
  | String c r => String (f c) (map_string f r)
  end.

Definition ToUpper : string → string := map_string upper_ascii.
Definition ToLower : string → string := map_string lower_ascii.

(** [strings.Contains(s, substr)] *)
Fixpoint Contains (s substr : string) : bool :=
  String.prefix substr s ||
  match s with
  | EmptyString => false
  | String _ r => Contains r substr
  end.

End strings.

(** [%d] of an integer *)
Definition itoa (z : Z) : string := NilZero.string_of_int (Z.to_int z).

(** A Go [(T, error)] pair; the error is its [Error()] text. *)
Inductive result (A : Type) : Type :=
| Ok (a : A)
| Err (e : string).
Arguments Ok {A} a.
Arguments Err {A} e.

(** ** internal/config *)

Module config.

Record UniFiConfig := {
  SiteID : string;
  GateAPMAC : string;
  PollInterval : Z
}.

Record ShellyConfig := { TriggerURL : string }.

Record GateConfig := {
  OpenDuration : Z;      (* minutes (also used as cooldown) *)
  LogActivity : bool     (* whether to log device activity *)
}.

Record DeviceConfig := {
  MAC : string;
  Name : string;
  Enabled : bool
}.

Record Config := {
  UniFi : UniFiConfig;
  Shelly : ShellyConfig;
  Gate : GateConfig;
  Devices : list DeviceConfig
}.

Definition with_Devices (c : Config) (ds : list DeviceConfig) : Config :=
  {| UniFi := UniFi c; Shelly := Shelly c; Gate := Gate c; Devices := ds |}.

Definition has_device (mac : string) (ds : list DeviceConfig) : bool :=
  existsb (λ d, String.eqb (MAC d) mac) ds.

Definition AddDevice (c : Config) (mac name : string) : result Config :=
  if has_device mac (Devices c) then Err "device already exists"
  else Ok (with_Devices c
             (Devices c ++ [ {| MAC := mac; Name := name; Enabled := true |} ])).

(** The loops of [UpdateDevice] and [RemoveDevice] return at the first
    entry whose MAC is equal to [mac]. *)
Fixpoint update_first (mac name : string) (enabled : bool)
    (ds : list DeviceConfig) : option (list DeviceConfig) :=
  match ds with
  | [] => None
  | d :: r =>
      if String.eqb (MAC d) mac
      then Some ({| MAC := MAC d; Name := name; Enabled := enabled |} :: r)
      else cons d <$> update_first mac name enabled r
  end.

Fixpoint remove_first (mac : string) (ds : list DeviceConfig)
    : option (list DeviceConfig) :=
  match ds with
  | [] => None
  | d :: r =>
      if String.eqb (MAC d) mac then Some r
      else cons d <$> remove_first mac r
  end.

Definition UpdateDevice (c : Config) (mac name : string) (enabled : bool)
    : result Config :=
  match update_first mac name enabled (Devices c) with
  | Some ds => Ok (with_Devices c ds)
  | None => Err "device not found"
  end.

Definition RemoveDevice (c : Config) (mac : string) : result Config :=
  match remove_first mac (Devices c) with
  | Some ds => Ok (with_Devices c ds)
  | None => Err "device not found"
  end.

(** [GetDevice] returns a pointer to the first entry with this MAC, or nil. *)
Fixpoint find_first (mac : string) (ds : list DeviceConfig)
    : option DeviceConfig :=
  match ds with
  | [] => None
  | d :: r => if String.eqb (MAC d) mac then Some d else find_first mac r
  end.

Definition GetDevice (c : Config) (mac : string) : option DeviceConfig :=
  find_first mac (Devices c).

End config.

(** ** internal/database: the calls the engine makes *)

Module database.

Record LogEntry := {
  DeviceMAC : string;
  DeviceName : string;
  Event : string;
  Direction : string;
  FromAP : string;
  ToAP : string;
  GateOpened : bool;
  Message : string
}.

(** Writing calls, in the order they are made. *)
Inductive Call :=
| LogEvent (entry : LogEntry)
| UpdateDeviceState (mac currentAP : string) (isConnected : bool)
| UpdateLastGateTrigger (mac : string).

(** What [GetDeviceState] and [GetLastGateTrigger] answer at the moment
    the registry is seeded.  [GetLastGateTrigger]'s error is dropped by
    its caller, which then sees the zero time it returns with it. *)
Record View := {
  GetDeviceState : string → result (string * Z * bool);
  GetLastGateTrigger : string → Z
}.

End database.

(** ** internal/unifi: a wireless client of the snapshot *)

Module unifi.

Record WirelessClient := {
  MAC : string;
  AP_MAC : string;
  Uptime : Z
}.

End unifi.

(** ** The environment and the monad of effects *)

Inductive HttpResult :=
| Transport (e : string)       (* client.Get returned an error *)
| Status (code : Z).           (* a response with this status code *)

Record Env := {
  clock : nat → Z;
  httpGet : nat → string → HttpResult;
  login : nat → option string;                          (* None: logged in *)
  getActiveClients : nat → string → result (list unifi.WirelessClient);
  saveConfig : nat → bool                               (* true: written *)
}.

Record World := {
  clockReads : nat;
  httpGets : nat;
  logins : nat;
  fetches : nat;
  saves : nat;
  dbCalls : list database.Call
}.

Definition M (A : Type) : Type := Env → World → A * World.

Definition ret {A} (a : A) : M A := λ _ w, (a, w).

Definition bind {A B} (m : M A) (k : A → M B) : M B :=
  λ env w, let '(a, w') := m env w in k a env w'.

Notation "x <- c1 ;; c2" := (bind c1 (λ x, c2))
  (at level 100, c1 at next level, right associativity).
Notation "c1 ;;; c2" := (bind c1 (λ _, c2))
  (at level 100, right associativity).

Definition time_Now : M Z := λ env w,
  (clock env (clockReads w),
   {| clockReads := S (clockReads w); httpGets := httpGets w;
      logins := logins w; fetches := fetches w; saves := saves w;
      dbCalls := dbCalls w |}).

(** [time.Since(t)] is [time.Now().Sub(t)]. *)
Definition time_Since (t : Z) : M Z :=
  now <- time_Now ;; ret (time.Sub now t).

Definition http_Get (url : string) : M HttpResult := λ env w,
  (httpGet env (httpGets w) url,
   {| clockReads := clockReads w; httpGets := S (httpGets w);
      logins := logins w; fetches := fetches w; saves := saves w;
      dbCalls := dbCalls w |}).

Definition unifi_Login : M (option string) := λ env w,
  (login env (logins w),
   {| clockReads := clockReads w; httpGets := httpGets w;
      logins := S (logins w); fetches := fetches w; saves := saves w;
      dbCalls := dbCalls w |}).

Definition unifi_GetActiveClients (siteID : string)
    : M (result (list unifi.WirelessClient)) := λ env w,
  (getActiveClients env (fetches w) siteID,
   {| clockReads := clockReads w; httpGets := httpGets w;
      logins := logins w; fetches := S (fetches w); saves := saves w;
      dbCalls := dbCalls w |}).

Definition config_SaveConfig : M bool := λ env w,
  (saveConfig env (saves w),
   {| clockReads := clockReads w; httpGets := httpGets w;
      logins := logins w; fetches := fetches w; saves := S (saves w);
      dbCalls := dbCalls w |}).

Definition db (c : database.Call) : M unit := λ _ w,
  (tt,
   {| clockReads := clockReads w; httpGets := httpGets w;
      logins := logins w; fetches := fetches w; saves := saves w;
      dbCalls := dbCalls w ++ [c] |}).

(** ** net/http: the status codes used *)

Module http.

Definition StatusOK : Z := 200.
Definition StatusBadRequest : Z := 400.
Definition StatusNotFound : Z := 404.
Definition StatusInternalServerError : Z := 500.

End http.

(** ** internal/gate *)

Module gate.

Record Controller := { triggerURL : string }.

Definition NewController (triggerURL : string) : Controller :=
  {| triggerURL := triggerURL |}.

Inductive Error :=
| NotConfigured
| TriggerFailed (e : string)
| BadStatus (code : Z).

Definition Error_text (e : Error) : string :=
  match e with
  | NotConfigured => "gate trigger URL not configured"
  | TriggerFailed e => "failed to trigger gate: " +:+ e
  | BadStatus code => "gate trigger returned status " +:+ itoa code
  end.

Definition OpenGate (c : Controller) : M (option Error) :=
  if String.eqb (triggerURL c) "" then ret (Some NotConfigured)
  else
    resp <- http_Get (triggerURL c) ;;
    match resp with
    | Transport e => ret (Some (TriggerFailed e))
    | Status code =>
        if negb (code =? http.StatusOK) then ret (Some (BadStatus code))
        else ret None
    end.

Definition UpdateURL (c : Controller) (newURL : string) : Controller :=
  {| triggerURL := newURL |}.

End gate.

(** ** internal/handlers *)

Module handlers.

Definition directionArriving : string := "arriving".
Definition directionLeaving : string := "leaving".
Definition directionUnknown : string := "unknown".

Record DeviceState := {
  MAC : string;
  Name : string;
  CurrentAP : string;
  PreviousAP : string;
  LastSeen : Z;
  IsConnected : bool;
  LastGateTrigger : Z
}.

(** [&DeviceState{MAC: mac, Name: name}]: all other fields zero. *)
Definition newDeviceState (mac name : string) : DeviceState :=
  {| MAC := mac; Name := name; CurrentAP := ""; PreviousAP := "";
     LastSeen := time.zero; IsConnected := false;
     LastGateTrigger := time.zero |}.

Record App := {
  Config : config.Config;
  UniFiClient : bool;                    (* false: the pointer is nil *)
  GateController : gate.Controller;
  (* Monitoring state *)
  isMonitoring : bool;
  deviceStates : gmap string DeviceState;
  (* Authentication retry state *)
  authRetryCount : Z;
  lastAuthAttempt : Z;
  authRetryBackoff : Z
}.

Definition gateAP (app : App) : string :=
  config.GateAPMAC (config.UniFi (Config app)).

Definition logActivity (app : App) : bool :=
  config.LogActivity (config.Gate (Config app)).

(** *** Field updates *)

Definition set_LastGateTrigger (s : DeviceState) (t : Z) : DeviceState :=
  {| MAC := MAC s; Name := Name s; CurrentAP := CurrentAP s;
     PreviousAP := PreviousAP s; LastSeen := LastSeen s;
     IsConnected := IsConnected s; LastGateTrigger := t |}.

Definition set_Name (s : DeviceState) (n : string) : DeviceState :=
  {| MAC := MAC s; Name := n; CurrentAP := CurrentAP s;
     PreviousAP := PreviousAP s; LastSeen := LastSeen s;
     IsConnected := IsConnected s; LastGateTrigger := LastGateTrigger s |}.

(** [state.CurrentAP = newAP; state.IsConnected = true;
     state.LastSeen = now] *)
Definition set_connected (s : DeviceState) (newAP : string) (now : Z)
    : DeviceState :=
  {| MAC := MAC s; Name := Name s; CurrentAP := newAP;
     PreviousAP := PreviousAP s; LastSeen := now;
     IsConnected := true; LastGateTrigger := LastGateTrigger s |}.

(** [state.PreviousAP = state.CurrentAP; state.CurrentAP = "";
     state.IsConnected = false] *)
Definition set_disconnected (s : DeviceState) : DeviceState :=
  {| MAC := MAC s; Name := Name s; CurrentAP := "";
     PreviousAP := CurrentAP s; LastSeen := LastSeen s;
     IsConnected := false; LastGateTrigger := LastGateTrigger s |}.

Definition set_deviceStates (app : App) (m : gmap string DeviceState) : App :=
  {| Config := Config app; UniFiClient := UniFiClient app;
     GateController := GateController app;
     isMonitoring := isMonitoring app; deviceStates := m;
     authRetryCount := authRetryCount app;
     lastAuthAttempt := lastAuthAttempt app;
     authRetryBackoff := authRetryBackoff app |}.

Definition set_Config (app : App) (c : config.Config) : App :=
  {| Config := c; UniFiClient := UniFiClient app;
     GateController := GateController app;
     isMonitoring := isMonitoring app; deviceStates := deviceStates app;
     authRetryCount := authRetryCount app;
     lastAuthAttempt := lastAuthAttempt app;
     authRetryBackoff := authRetryBackoff app |}.

Definition set_auth (app : App) (count last backoff : Z) : App :=
  {| Config := Config app; UniFiClient := UniFiClient app;
     GateController := GateController app;
     isMonitoring := isMonitoring app; deviceStates := deviceStates app;
     authRetryCount := count;
     lastAuthAttempt := last;
     authRetryBackoff := backoff |}.

(** *** The gate trigger controller *)

(** [if app.Config.Gate.LogActivity { app.DB.LogEvent(entry) }] *)
Definition logEvent (app : App) (entry : database.LogEntry) : M unit :=
  if logActivity app then db (database.LogEvent entry) else ret tt.

(** [time.Duration(app.Config.Gate.OpenDuration) * time.Minute] *)
Definition cooldownDuration (app : App) : Z :=
  time.Mul (config.OpenDuration (config.Gate (Config app))) time.Minute.

Definition gateEntry (state : DeviceState) (event direction : string)
    (opened : bool) (message : string) : database.LogEntry :=
  {| database.DeviceMAC := MAC state;
     database.DeviceName := Name state;
     database.Event := event;
     database.Direction := direction;
     database.FromAP := "";
     database.ToAP := "";
     database.GateOpened := opened;
     database.Message := message |}.

Definition checkAndOpenGate (app : App) (state : DeviceState)
    (direction : string) : M DeviceState :=
  (* Check cooldown period (using open duration) *)
  since <- time_Since (LastGateTrigger state) ;;
  if since <? cooldownDuration app then
    (* the remaining time printed by the logger reads the clock again *)
    _ <- time_Since (LastGateTrigger state) ;;
    logEvent app (gateEntry state "gate_skipped" direction false
                    "Gate recently opened, cooldown active") ;;;
    ret state
  else
    (* Open gate *)
    err <- gate.OpenGate (GateController app) ;;
    match err with
    | Some e =>
        logEvent app (gateEntry state "gate_error" direction false
                        (gate.Error_text e)) ;;;
        ret state
    | None =>
        (* Update last trigger time *)
        now <- time_Now ;;
        db (database.UpdateLastGateTrigger (MAC state)) ;;;
        (* Log successful gate opening *)
        logEvent app (gateEntry state "gate_triggered" direction true
                        "Gate opened successfully") ;;;
        ret (set_LastGateTrigger state now)
    end.

(** *** Event handlers of the presence tracker *)

Definition moveEntry (state : DeviceState)
    (event direction fromAP toAP message : string) : database.LogEntry :=
  {| database.DeviceMAC := MAC state;
     database.DeviceName := Name state;
     database.Event := event;
     database.Direction := direction;
     database.FromAP := fromAP;
     database.ToAP := toAP;
     database.GateOpened := false;
     database.Message := message |}.

Definition handleDeviceConnected (app : App) (state : DeviceState)
    (toAP fromAP : string) : M DeviceState :=
  let direction :=
    if String.eqb toAP (gateAP app) then directionArriving
    else directionUnknown in
  (* Log event if activity logging is enabled *)
  logEvent app (moveEntry state "connected" direction fromAP toAP
                  "Device connected to network") ;;;
  (* Check if we should open gate *)
  if String.eqb toAP (gateAP app) then checkAndOpenGate app state direction
  else ret state.

Definition handleDeviceRoamed (app : App) (state : DeviceState)
    (fromAP toAP : string) : M DeviceState :=
  (* Determine direction based on AP movement *)
  let direction :=
    if String.eqb toAP (gateAP app) then
      if negb (String.eqb fromAP "") then directionLeaving
      else directionArriving
    else if String.eqb fromAP (gateAP app) then directionArriving
    else directionUnknown in
  logEvent app (moveEntry state "roamed" direction fromAP toAP
                  "Device roamed between access points") ;;;
  (* Check if we should open gate *)
  if String.eqb toAP (gateAP app) || String.eqb fromAP (gateAP app)
  then checkAndOpenGate app state direction
  else ret state.

Definition handleDeviceDisconnected (app : App) (state : DeviceState)
    : M unit :=
  logEvent app (moveEntry state "disconnected" "" (CurrentAP state) ""
                  "Device disconnected from network").

(** *** Auth resilience *)

Inductive ReauthError :=
| BackoffInEffect (wait : Z)   (* "authentication retry backoff in effect" *)
| LoginFailed (e : string).    (* the error of UniFiClient.Login *)

(** The backoff stored by the failure that brings the retry count to
    [count]:
    [time.Duration(1<<uint(count-1)) * time.Second], then
    [if backoff > 64*time.Second { backoff = 64 * time.Second }].
    The source's comment: "Exponential backoff: 1s, 2s, 4s, 8s, 16s, 32s,
    64s (max)". *)
Definition nextBackoff (count : Z) : Z :=
  let backoff :=
    time.Mul (shl64 1 (uint_of_int (wrap64 (count - 1)))) time.Second in
  if 64 * time.Second <? backoff then 64 * time.Second else backoff.

Definition reauthenticateWithBackoff (app : App)
    : M (App * option ReauthError) :=
  (* Check if we should attempt re-authentication based on backoff *)
  since <- time_Since (lastAuthAttempt app) ;;
  if since <? authRetryBackoff app then
    since' <- time_Since (lastAuthAttempt app) ;;
    ret (app, Some (BackoffInEffect (wrap64 (authRetryBackoff app - since'))))
  else
    now <- time_Now ;;
    (* Attempt to login *)
    err <- unifi_Login ;;
    match err with
    | Some e =>
        (* Increase retry count and calculate next backoff *)
        let count := wrap64 (authRetryCount app + 1) in
        ret (set_auth app count now (nextBackoff count),
             Some (LoginFailed e))
    | None =>
        (* Reset retry state on successful authentication *)
        ret (set_auth app 0 now 0, None)
    end.

(** [isAuthError], on the text of a non-nil error. *)
Definition isAuthError (err : string) : bool :=
  let errStr := strings.ToLower err in
  strings.Contains errStr "401" ||
  strings.Contains errStr "unauthorized" ||
  strings.Contains errStr "not logged in" ||
  strings.Contains errStr "authentication" ||
  strings.Contains errStr "invalid token".

(** *** The poller *)

(** [currentlyConnected[strings.ToUpper(clients[i].MAC)] = &clients[i]],
    for [i] in increasing order: a later entry replaces an earlier one
    with the same normalized address. *)
Definition currentlyConnected (clients : list unifi.WirelessClient)
    : gmap string unifi.WirelessClient :=
  foldl (λ m c, <[strings.ToUpper (unifi.MAC c) := c]> m) ∅ clients.

(** The body of the loop [for mac, state := range app.deviceStates]. *)
Definition pollDevice (app : App)
    (connected : gmap string unifi.WirelessClient)
    (mac : string) (state : DeviceState) : M DeviceState :=
  match connected !! mac with
  | Some client =>
      (* Device is connected *)
      let newAP := unifi.AP_MAC client in
      state <-
        (if negb (IsConnected state) then
           (* Device just connected *)
           if String.eqb newAP (gateAP app) && (unifi.Uptime client <? 30)
           then handleDeviceConnected app state newAP "nowhere"
           else if negb (String.eqb newAP (gateAP app))
           then handleDeviceConnected app state newAP "nowhere"
           else ret state
         else if negb (String.eqb (CurrentAP state) newAP) then
           (* Device roamed to different AP *)
           handleDeviceRoamed app state (CurrentAP state) newAP
         else ret state) ;;
      (* Update state *)
      now <- time_Now ;;
      (* Update database *)
      db (database.UpdateDeviceState mac newAP true) ;;;
      ret (set_connected state newAP now)
  | None =>
      if IsConnected state then
        (* Device disconnected *)
        handleDeviceDisconnected app state ;;;
        db (database.UpdateDeviceState mac "" false) ;;;
        ret (set_disconnected state)
      else ret state
  end.

(** Go visits every key of the map once, in an order the runtime picks
    afresh for each loop; [order] is the order picked for this one. *)
Fixpoint rangeDevices (app : App)
    (connected : gmap string unifi.WirelessClient)
    (order : list string) (states : gmap string DeviceState)
    : M (gmap string DeviceState) :=
  match order with
  | [] => ret states
  | mac :: rest =>
      match states !! mac with
      | Some state =>
          state' <- pollDevice app connected mac state ;;
          rangeDevices app connected rest (<[mac := state']> states)
      | None => rangeDevices app connected rest states
      end
  end.

(** The part of [pollUniFi] that follows a successful fetch. *)
Definition checkDevices (order : list string) (app : App)
    (clients : list unifi.WirelessClient) : M App :=
  states <- rangeDevices app (currentlyConnected clients) order
              (deviceStates app) ;;
  ret (set_deviceStates app states).

Definition pollUniFi (order : list string) (app : App) : M App :=
  (* Ensure we're logged in *)
  if negb (UniFiClient app) then ret app
  else
    let siteID := config.SiteID (config.UniFi (Config app)) in
    r <- unifi_GetActiveClients siteID ;;
    match r with
    | Ok clients => checkDevices order app clients
    | Err err =>
        (* Check if this is an authentication error *)
        if isAuthError err then
          (* Attempt re-authentication with backoff *)
          reauth <- reauthenticateWithBackoff app ;;
          let app := fst reauth in
          match snd reauth with
          | Some _ => ret app    (* failed or backoff in effect *)
          | None =>
              (* Retry getting clients after successful re-authentication *)
              r <- unifi_GetActiveClients siteID ;;
              match r with
              | Ok clients => checkDevices order app clients
              | Err _ => ret app
              end
          end
        else ret app             (* Non-authentication error *)
    end.

(** *** Start and stop *)

Definition loadDevice (view : database.View)
    (states : gmap string DeviceState) (device : config.DeviceConfig)
    : gmap string DeviceState :=
  if negb (config.Enabled device) then states
  else
    match database.GetDeviceState view (config.MAC device) with
    | Err _ => states
    | Ok (currentAP, lastSeen, isConnected) =>
        let lastTrigger := database.GetLastGateTrigger view (config.MAC device) in
        let normalizedMAC := strings.ToUpper (config.MAC device) in
        <[normalizedMAC :=
            {| MAC := normalizedMAC; Name := config.Name device;
               CurrentAP := currentAP; PreviousAP := "";
               LastSeen := lastSeen; IsConnected := isConnected;
               LastGateTrigger := lastTrigger |}]> states
    end.

Definition loadDeviceStates (view : database.View) (app : App) : App :=
  set_deviceStates app
    (foldl (loadDevice view) (deviceStates app)
       (config.Devices (Config app))).

(** [StartMonitoring] up to its first poll: nothing happens when the
    monitoring is already running; otherwise the registry is made anew,
    the gate controller is created and the registry is seeded.  The loop
    that follows calls [pollUniFi] once at once and then on every tick. *)
Definition StartMonitoring (view : database.View) (app : App) : App :=
  if isMonitoring app then app
  else
    loadDeviceStates view
      {| Config := Config app; UniFiClient := UniFiClient app;
         GateController :=
           gate.NewController
             (config.TriggerURL (config.Shelly (Config app)));
         isMonitoring := true; deviceStates := ∅;
         authRetryCount := authRetryCount app;
         lastAuthAttempt := lastAuthAttempt app;
         authRetryBackoff := authRetryBackoff app |}.

Definition StopMonitoring (app : App) : App :=
  if isMonitoring app then
    {| Config := Config app; UniFiClient := UniFiClient app;
       GateController := GateController app;
       isMonitoring := false; deviceStates := deviceStates app;
       authRetryCount := authRetryCount app;
       lastAuthAttempt := lastAuthAttempt app;
       authRetryBackoff := authRetryBackoff app |}
  else app.

(** *** Device CRUD of the dashboard

    A handler gets the decoded JSON body ([None] when decoding fails) and
    answers with an HTTP status. *)

Record AddDeviceRequest := { add_MAC : string; add_Name : string }.

Definition AddDeviceHandler (body : option AddDeviceRequest) (app : App)
    : M (Z * App) :=
  match body with
  | None => ret (http.StatusBadRequest, app)
  | Some req =>
      match config.AddDevice (Config app) (add_MAC req) (add_Name req) with
      | Err _ => ret (http.StatusBadRequest, app)
      | Ok cfg =>
          let app := set_Config app cfg in
          (* Save configuration *)
          saved <- config_SaveConfig ;;
          if negb saved then ret (http.StatusInternalServerError, app)
          else
            (* Add to monitoring if active *)
            if isMonitoring app then
              let normalizedMAC := strings.ToUpper (add_MAC req) in
              ret (http.StatusOK,
                   set_deviceStates app
                     (<[normalizedMAC :=
                          newDeviceState normalizedMAC (add_Name req)]>
                        (deviceStates app)))
            else ret (http.StatusOK, app)
      end
  end.

Record UpdateDeviceRequest := { upd_Name : string; upd_Enabled : bool }.

(** [mac] is the [id] variable of the route. *)
Definition UpdateDeviceHandler (mac : string)
    (body : option UpdateDeviceRequest) (app : App) : M (Z * App) :=
  match body with
  | None => ret (http.StatusBadRequest, app)
  | Some req =>
      match config.UpdateDevice (Config app) mac (upd_Name req)
              (upd_Enabled req) with
      | Err _ => ret (http.StatusNotFound, app)
      | Ok cfg =>
          let app := set_Config app cfg in
          saved <- config_SaveConfig ;;
          if negb saved then ret (http.StatusInternalServerError, app)
          else
            (* Update monitoring state *)
            match deviceStates app !! mac with
            | Some state =>
                let states :=
                  <[mac := set_Name state (upd_Name req)]> (deviceStates app) in
                if negb (upd_Enabled req)
                then ret (http.StatusOK, set_deviceStates app (delete mac states))
                else ret (http.StatusOK, set_deviceStates app states)
            | None =>
                if upd_Enabled req && isMonitoring app then
                  ret (http.StatusOK,
                       set_deviceStates app
                         (<[mac := newDeviceState mac (upd_Name req)]>
                            (deviceStates app)))
                else ret (http.StatusOK, app)
            end
      end
  end.

Definition DeleteDeviceHandler (mac : string) (app : App) : M (Z * App) :=
  match config.RemoveDevice (Config app) mac with
  | Err _ => ret (http.StatusNotFound, app)
  | Ok cfg =>
      let app := set_Config app cfg in
      saved <- config_SaveConfig ;;
      if negb saved then ret (http.StatusInternalServerError, app)
      else
        (* Remove from monitoring *)
        ret (http.StatusOK, set_deviceStates app (delete mac (deviceStates app)))
  end.

End handlers.

(** ** Worlds after a run, and the scenario of the specification *)

(** The world [w] after [reads] more clock readings, [gets] more HTTP
    requests to the gate and the database calls [calls]. *)
Definition advance (reads gets : nat) (calls : list database.Call)
    (w : World) : World :=
  {| clockReads := reads + clockReads w; httpGets := gets + httpGets w;
     logins := logins w; fetches := fetches w; saves := saves w;
     dbCalls := dbCalls w ++ calls |}.

(** The event-log call made for [entry]: none when activity logging is off. *)
Definition activity (app : handlers.App) (entry : database.LogEntry)
    : list database.Call :=
  if handlers.logActivity app then [database.LogEvent entry] else [].

(** An event-log call whose event kind is [kind]. *)
Definition logs_event (kind : string) (c : database.Call) : bool :=
  match c with
  | database.LogEvent entry => String.eqb (database.Event entry) kind
  | _ => false
  end.

(** The kinds and directions of the entries handed to the event log. *)
Definition eventKinds (calls : list database.Call) : list (string * string) :=
  omap (λ c, match c with
             | database.LogEvent entry =>
                 Some (database.Event entry, database.Direction entry)
             | _ => None
             end) calls.

Module scenario.

(** Device [AA:BB:CC:DD:EE:01], gate AP [GATE-MAC], open_duration 5 min. *)
Definition cfg (log : bool) : config.Config :=
  {| config.UniFi :=
       {| config.SiteID := "default"; config.GateAPMAC := "GATE-MAC";
          config.PollInterval := 1 |};
     config.Shelly := {| config.TriggerURL := "http://shelly/relay/0?turn=on" |};
     config.Gate := {| config.OpenDuration := 5; config.LogActivity := log |};
     config.Devices := [] |}.

Definition app (log : bool) : handlers.App :=
  {| handlers.Config := cfg log;
     handlers.UniFiClient := true;
     handlers.GateController :=
       gate.NewController "http://shelly/relay/0?turn=on";
     handlers.isMonitoring := true;
     handlers.deviceStates := ∅;
     handlers.authRetryCount := 0;
     handlers.lastAuthAttempt := time.zero;
     handlers.authRetryBackoff := 0 |}.

Definition phone : handlers.DeviceState :=
  handlers.newDeviceState "AA:BB:CC:DD:EE:01" "Phone".

Definition w0 : World :=
  {| clockReads := 0; httpGets := 0; logins := 0; fetches := 0; saves := 0;
     dbCalls := [] |}.

(** A clock that advances by [step] between two readings, a gate that
    answers every request with [status], a controller whose login gives
    [loginErr] and whose client list is [clients]. *)
Definition env (step : Z) (status : Z) (loginErr : option string)
    (clients : result (list unifi.WirelessClient)) : Env :=
  {| clock := λ n, Z.of_nat n * step;
     httpGet := λ _ _, Status status;
     login := λ _, loginErr;
     getActiveClients := λ _ _, clients;
     saveConfig := λ _, true |}.

Definition logging : handlers.App := app true.
Definition silent : handlers.App := app false.

(** The gate answers 200, respectively 503; one second passes between
    two readings of the clock. *)
Definition working : Env := env time.Second 200 None (Ok []).
Definition failing : Env := env time.Second 503 None (Ok []).


(** A first arrival of the phone, with the gate working or failing. *)
Definition opened : handlers.DeviceState * World :=
  handlers.checkAndOpenGate logging phone "arriving" working w0.

(** The controller refuses every login; 100 seconds pass between two
    readings of the clock, more than the longest backoff. *)
Definition locked_out : Env :=
  env (100 * time.Second) 200 (Some "failed to login: 401 Unauthorized")
    (Err "not logged in").

(** Seven failures behind it, the last attempt at instant 0. *)
Definition backing_off : handlers.App :=
  handlers.set_auth logging 7 0 (64 * time.Second).

(** The phone as the controller lists it: at the gate AP, associated for
    [uptime] seconds. *)
Definition at_gate (uptime : Z) : unifi.WirelessClient :=
  {| unifi.MAC := "aa:bb:cc:dd:ee:01"; unifi.AP_MAC := "GATE-MAC";
     unifi.Uptime := uptime |}.

(** The phone on the access point of the house, which it then leaves for
    the gate AP. *)
Definition indoors : handlers.DeviceState :=
  handlers.set_connected phone "HOUSE-MAC" 0.

(** The monitoring session tracks the phone. *)
Definition tracking : handlers.App :=
  handlers.set_deviceStates logging {[ "AA:BB:CC:DD:EE:01" := phone ]}.

(** The controller lists the phone at the gate, associated for [uptime]
    seconds; the gate answers 200; one second between clock readings. *)
Definition listed (uptime : Z) : Env :=
  env time.Second 200 None (Ok [at_gate uptime]).

(** Before monitoring starts: the phone is configured, typed in lower
    case, and the database has no row yet. *)
Definition home : handlers.App :=
  {| handlers.Config :=
       config.with_Devices (cfg true)
         [ {| config.MAC := "aa:bb:cc:dd:ee:01"; config.Name := "Phone";
              config.Enabled := true |} ];
     handlers.UniFiClient := true;
     handlers.GateController := gate.NewController "";
     handlers.isMonitoring := false;
     handlers.deviceStates := ∅;
     handlers.authRetryCount := 0;
     handlers.lastAuthAttempt := time.zero;
     handlers.authRetryBackoff := 0 |}.

(** [GetDeviceState] and [GetLastGateTrigger] on a table without rows. *)
Definition empty_db : database.View :=
  {| database.GetDeviceState := λ _, Ok ("", time.zero, false);
     database.GetLastGateTrigger := λ _, time.zero |}.

(** A table whose rows say: connected, access point empty. *)
Definition nameless_db : database.View :=
  {| database.GetDeviceState := λ _, Ok ("", 0, true);
     database.GetLastGateTrigger := λ _, time.zero |}.

(** The controller lists the phone without an access point. *)
Definition nameless : Env :=
  env time.Second 200 None
    (Ok [ {| unifi.MAC := "aa:bb:cc:dd:ee:01"; unifi.AP_MAC := "";
             unifi.Uptime := 10 |} ]).

(** The dashboard adds the phone, typed in lower case, while monitoring
    runs; then removes it, disables it, or enables it, each time under the
    address as it was typed and as the configuration holds it. *)
Definition typed : string := "aa:bb:cc:dd:ee:01".

Definition added : Z * handlers.App * World :=
  handlers.AddDeviceHandler
    (Some {| handlers.add_MAC := typed; handlers.add_Name := "Phone" |})
    logging working w0.

Definition removed : Z * handlers.App * World :=
  handlers.DeleteDeviceHandler typed (snd (fst added)) working (snd added).

Definition removed_upper : Z * handlers.App * World :=
  handlers.DeleteDeviceHandler "AA:BB:CC:DD:EE:01" (snd (fst added)) working
    (snd added).

Definition disabled : Z * handlers.App * World :=
  handlers.UpdateDeviceHandler typed
    (Some {| handlers.upd_Name := "Phone"; handlers.upd_Enabled := false |})
    (snd (fst added)) working (snd added).

Definition enabled : Z * handlers.App * World :=
  handlers.UpdateDeviceHandler typed
    (Some {| handlers.upd_Name := "Phone"; handlers.upd_Enabled := true |})
    (snd (fst added)) working (snd added).

(** Monitoring starts at home, where the phone is configured in lower
    case; then the phone is removed under its configured address. *)
Definition seeded : handlers.App := handlers.StartMonitoring empty_db home.

Definition seeded_removed : Z * handlers.App * World :=
  handlers.DeleteDeviceHandler typed seeded working w0.

(** The walk-through of the specification: the phone is listed at the gate
    (uptime 10 s) at the first two polls, absent at the third and listed
    again (uptime 5 s) at the fourth; 45 seconds pass between two readings
    of the clock, so that the fourth poll comes less than 5 minutes after
    the gate was opened. *)
Definition visit : Env :=
  {| clock := λ n, Z.of_nat n * (45 * time.Second);
     httpGet := λ _ _, Status 200;
     login := λ _, None;
     getActiveClients := λ k _,
       match k with
       | 0%nat | 1%nat => Ok [at_gate 10]
       | 2%nat => Ok []
       | _ => Ok [at_gate 5]
       end;
     saveConfig := λ _, true |}.

Definition four_polls : M handlers.App :=
  app <- handlers.pollUniFi ["AA:BB:CC:DD:EE:01"] tracking ;;
  app <- handlers.pollUniFi ["AA:BB:CC:DD:EE:01"] app ;;
  app <- handlers.pollUniFi ["AA:BB:CC:DD:EE:01"] app ;;
  handlers.pollUniFi ["AA:BB:CC:DD:EE:01"] app.

(** [n] calls of [reauthenticateWithBackoff] in a row. *)
Fixpoint reauthenticate (n : nat) (app : handlers.App) : M handlers.App :=
  match n with
  | O => ret app
  | S k =>
      r <- handlers.reauthenticateWithBackoff app ;;
      reauthenticate k (fst r)
  end.

End scenario.

(** ** Vocabulary of the properties *)

(** The entries [checkAndOpenGate] hands to the event log. *)
Definition skippedEntry (state : handlers.DeviceState) (direction : string)
    : database.LogEntry :=
  handlers.gateEntry state "gate_skipped" direction false
    "Gate recently opened, cooldown active".

Definition errorEntry (state : handlers.DeviceState) (direction : string)
    (e : gate.Error) : database.LogEntry :=
  handlers.gateEntry state "gate_error" direction false (gate.Error_text e).

Definition triggeredEntry (state : handlers.DeviceState) (direction : string)
    : database.LogEntry :=
  handlers.gateEntry state "gate_triggered" direction true
    "Gate opened successfully".

(** [n] calls in a row, each of which attempted the login and failed. *)
Inductive failedAttempts : nat → handlers.App → handlers.App → Prop :=
| failed_none app : failedAttempts 0 app app
| failed_more n app app1 app2 env w e w' :
    failedAttempts n app app1 →
    handlers.reauthenticateWithBackoff app1 env w
      = ((app2, Some (handlers.LoginFailed e)), w') →
    failedAttempts (S n) app app2.

(** The entry of a roam. *)
Definition roamedEntry (state : handlers.DeviceState)
    (direction fromAP toAP : string) : database.LogEntry :=
  handlers.moveEntry state "roamed" direction fromAP toAP
    "Device roamed between access points".

(** The end of the connected branch of the poll loop: the state is brought
    in line with the snapshot and persisted. *)
Definition updateConnected (mac newAP : string)
    (state : handlers.DeviceState) : M handlers.DeviceState :=
  now <- time_Now ;;
  db (database.UpdateDeviceState mac newAP true) ;;;
  ret (handlers.set_connected state newAP now).

(** The device loop with the event handlers left out: a listed device is
    brought in line with the snapshot and persisted, an unlisted one is
    left alone. *)
Definition refreshDevice (connected : gmap string unifi.WirelessClient)
    (mac : string) (state : handlers.DeviceState) : M handlers.DeviceState :=
  match connected !! mac with
  | Some client => updateConnected mac (unifi.AP_MAC client) state
  | None => ret state
  end.

Fixpoint refreshDevices (connected : gmap string unifi.WirelessClient)
    (order : list string) (states : gmap string handlers.DeviceState)
    : M (gmap string handlers.DeviceState) :=
  match order with
  | [] => ret states
  | mac :: rest =>
      match states !! mac with
      | Some state =>
          state' <- refreshDevice connected mac state ;;
          refreshDevices connected rest (<[mac := state']> states)
      | None => refreshDevices connected rest states
      end
  end.

Definition refreshOnly (order : list string) (app : handlers.App)
    (clients : list unifi.WirelessClient) : M handlers.App :=
  states <- refreshDevices (handlers.currentlyConnected clients) order
              (handlers.deviceStates app) ;;
  ret (handlers.set_deviceStates app states).

(** The world after one more call of [GetActiveClients]. *)
Definition fetched (w : World) : World :=
  {| clockReads := clockReads w; httpGets := httpGets w;
     logins := logins w; fetches := S (fetches w); saves := saves w;
     dbCalls := dbCalls w |}.

(** A device state agrees with the snapshot. *)
Definition settled (connected : gmap string unifi.WirelessClient)
    (mac : string) (state : handlers.DeviceState) : Prop :=
  match connected !! mac with
  | Some client =>
      handlers.IsConnected state = true ∧
      handlers.CurrentAP state = unifi.AP_MAC client
  | None => handlers.IsConnected state = false
  end.

(** [state'] is [state] but for [LastSeen], which may differ only for a
    connected device. *)
Definition refreshed (state state' : handlers.DeviceState) : Prop :=
  handlers.MAC state' = handlers.MAC state ∧
  handlers.Name state' = handlers.Name state ∧
  handlers.CurrentAP state' = handlers.CurrentAP state ∧
  handlers.PreviousAP state' = handlers.PreviousAP state ∧
  handlers.IsConnected state' = handlers.IsConnected state ∧
  handlers.LastGateTrigger state' = handlers.LastGateTrigger state ∧
  (handlers.IsConnected state = false →
   handlers.LastSeen state' = handlers.LastSeen state).

(** The database call that persists a connected device. *)
Definition stateWrite (c : database.Call) : bool :=
  match c with
  | database.UpdateDeviceState _ _ true => true
  | _ => false
  end.

(** From [w] to [w'] the gate was not called, nobody logged in, and the
    database only saw connected devices persisted: no entry of the event
    log, no trigger time. *)
Definition quiet (w w' : World) : Prop :=
  httpGets w' = httpGets w ∧
  logins w' = logins w ∧
  ∃ calls, dbCalls w' = dbCalls w ++ calls ∧ forallb stateWrite calls = true.

(** The invariant of the data model on one device state. *)
Definition consistent (state : handlers.DeviceState) : Prop :=
  handlers.CurrentAP state = "" ↔ handlers.IsConnected state = false.

Definition registry_consistent (states : gmap string handlers.DeviceState)
    : Prop :=
  ∀ mac state, states !! mac = Some state → consistent state.

(** Every key of the registry is in upper case. *)
Definition registry_normalized (states : gmap string handlers.DeviceState)
    : Prop :=
  ∀ mac state, states !! mac = Some state → strings.ToUpper mac = mac.

(** The rows of the database the registry is seeded from obey it. *)
Definition rows_consistent (view : database.View) : Prop :=
  ∀ mac currentAP lastSeen isConnected,
    database.GetDeviceState view mac = Ok (currentAP, lastSeen, isConnected) →
    (currentAP = "" ↔ isConnected = false).

(** Every client of every snapshot names its access point. *)
Definition snapshots_named (env : Env) : Prop :=
  ∀ k siteID clients,
    getActiveClients env k siteID = Ok clients →
    Forall (λ c, unifi.AP_MAC c ≠ "") clients.

(** The sessions reached from a freshly seeded registry by poll cycles and
    by the device operations of the dashboard. *)
Inductive reachable : handlers.App → Prop :=
| reach_start view app :
    rows_consistent view →
    handlers.isMonitoring app = false →
    reachable (handlers.StartMonitoring view app)
| reach_poll order app env w :
    reachable app →
    snapshots_named env →
    reachable (fst (handlers.pollUniFi order app env w))
| reach_add body app env w :
    reachable app →
    reachable (snd (fst (handlers.AddDeviceHandler body app env w)))
| reach_update mac body app env w :
    reachable app →
    reachable (snd (fst (handlers.UpdateDeviceHandler mac body app env w)))
| reach_delete mac app env w :
    reachable app →
    reachable (snd (fst (handlers.DeleteDeviceHandler mac app env w)))
| reach_stop app :
    reachable app →
    reachable (handlers.StopMonitoring app).

(** ** Vocabulary of the further properties *)

(** The addresses of the configured devices, in order. *)
Definition macs (c : config.Config) : list string :=
  config.MAC <$> config.Devices c.

(** The sessions reached from any start of the monitoring by poll cycles,
    device operations of the dashboard and stops, whatever the database
    and the controller answer. *)
Inductive session : handlers.App → Prop :=
| session_start view app :
    handlers.isMonitoring app = false →
    session (handlers.StartMonitoring view app)
| session_poll order app env w :
    session app →
    session (fst (handlers.pollUniFi order app env w))
| session_add body app env w :
    session app →
    session (snd (fst (handlers.AddDeviceHandler body app env w)))
| session_update mac body app env w :
    session app →
    session (snd (fst (handlers.UpdateDeviceHandler mac body app env w)))
| session_delete mac app env w :
    session app →
    session (snd (fst (handlers.DeleteDeviceHandler mac app env w)))
| session_stop app :
    session app →
    session (handlers.StopMonitoring app).

(** [app] with the activity-logging flag set to [log]. *)
Definition set_logging (app : handlers.App) (log : bool) : handlers.App :=
  handlers.set_Config app
    {| config.UniFi := config.UniFi (handlers.Config app);
       config.Shelly := config.Shelly (handlers.Config app);
       config.Gate :=
         {| config.OpenDuration :=
              config.OpenDuration (config.Gate (handlers.Config app));
            config.LogActivity := log |};
       config.Devices := config.Devices (handlers.Config app) |}.

(** The database calls other than those of the event log. *)
Definition unlogged (calls : list database.Call) : list database.Call :=
  List.filter
    (λ c, match c with database.LogEvent _ => false | _ => true end) calls.

(** Two worlds that differ at most in the entries of the event log. *)
Definition same_effects (w w' : World) : Prop :=
  clockReads w = clockReads w' ∧ httpGets w = httpGets w' ∧
  logins w = logins w' ∧ fetches w = fetches w' ∧ saves w = saves w' ∧
  unlogged (dbCalls w) = unlogged (dbCalls w').

(** Two computations that, run in such worlds, end in such worlds with
    results related by [R]. *)
Definition agree {A B} (R : A → B → Prop) (m : M A) (m' : M B) : Prop :=
  ∀ env w w',
    same_effects w w' →
    R (fst (m env w)) (fst (m' env w')) ∧
    same_effects (snd (m env w)) (snd (m' env w')).

(** From [w] to [w'] the gate was asked at most [n] times, the controller
    and the configuration file were not touched, and the database calls
    made before are still there. *)
Definition effects (n : nat) (w w' : World) : Prop :=
  (httpGets w ≤ httpGets w' ≤ n + httpGets w)%nat ∧
  (clockReads w ≤ clockReads w')%nat ∧
  logins w' = logins w ∧ fetches w' = fetches w ∧ saves w' = saves w ∧
  ∃ calls, dbCalls w' = dbCalls w ++ calls.

(** What an event may do to a device: nothing, or stamp it, past the
    cooldown, with the reading of the clock that follows the check, after
    one request to the gate. *)
Definition gated (app : handlers.App) (state : handlers.DeviceState)
    (m : M handlers.DeviceState) : Prop :=
  ∀ env w,
    (fst (m env w) = state ∨
     (fst (m env w)
        = handlers.set_LastGateTrigger state (clock env (S (clockReads w))) ∧
      ¬ time.Sub (clock env (clockReads w)) (handlers.LastGateTrigger state)
          < handlers.cooldownDuration app ∧
      httpGets (snd (m env w)) = S (httpGets w))) ∧
    effects 1 w (snd (m env w)).

(** [app'] is [app] but for the state of the authentication retries. *)
Definition same_setup (app app' : handlers.App) : Prop :=
  handlers.Config app' = handlers.Config app ∧
  handlers.UniFiClient app' = handlers.UniFiClient app ∧
  handlers.GateController app' = handlers.GateController app ∧
  handlers.isMonitoring app' = handlers.isMonitoring app ∧
  handlers.deviceStates app' = handlers.deviceStates app.

(** From [w] to [w'] only the controller was talked to: at most two
    fetches and at most one login; the clock may have been read. *)
Definition asked (w w' : World) : Prop :=
  (fetches w ≤ fetches w' ≤ 2 + fetches w)%nat ∧
  (logins w ≤ logins w' ≤ 1 + logins w)%nat ∧
  (clockReads w ≤ clockReads w')%nat ∧
  httpGets w' = httpGets w ∧ saves w' = saves w ∧ dbCalls w' = dbCalls w.

(** Every state of the registry is filed under its own address. *)
Definition registry_keyed (states : gmap string handlers.DeviceState)
    : Prop :=
  ∀ mac state, states !! mac = Some state → handlers.MAC state = mac.

(** The texts by which [isAuthError] knows an authentication error. *)
Definition authMarkers : list string :=
  ["401"; "unauthorized"; "not logged in"; "authentication"; "invalid token"].

(** The world [w] after [reads] more clock readings, [nlogins] more logins
    and [nfetches] more fetches of the client list. *)
Definition contacted (reads nlogins nfetches : nat) (w : World) : World :=
  {| clockReads := reads + clockReads w; httpGets := httpGets w;
     logins := nlogins + logins w; fetches := nfetches + fetches w;
     saves := saves w; dbCalls := dbCalls w |}.
(** The world [w] after one more write of the configuration file. *)
Definition stored (w : World) : World :=
  {| clockReads := clockReads w; httpGets := httpGets w;
     logins := logins w; fetches := fetches w; saves := S (saves w);
     dbCalls := dbCalls w |}.

(** The state the registry is seeded with for a configured device: none
    for a disabled device and for one the database does not know under
    the address as it is configured. *)
Definition seed (view : database.View) (device : config.DeviceConfig)
    : option handlers.DeviceState :=
  if config.Enabled device then
    match database.GetDeviceState view (config.MAC device) with
    | Ok (currentAP, lastSeen, isConnected) =>
        Some {| handlers.MAC := strings.ToUpper (config.MAC device);
                handlers.Name := config.Name device;
                handlers.CurrentAP := currentAP;
                handlers.PreviousAP := "";
                handlers.LastSeen := lastSeen;
                handlers.IsConnected := isConnected;
                handlers.LastGateTrigger :=
                  database.GetLastGateTrigger view (config.MAC device) |}
    | Err _ => None
    end
  else None.

(** [app] with one more device, enabled, at the end of the configured
    list. *)
Definition with_device (app : handlers.App) (mac name : string)
    : handlers.App :=
  handlers.set_Config app
    (config.with_Devices (handlers.Config app)
       (config.Devices (handlers.Config app) ++
          [ {| config.MAC := mac; config.Name := name;
               config.Enabled := true |} ])).

(** ** A household with two configured devices *)

Module household.

Definition phone_mac : string := "AA:BB:CC:DD:EE:01".
Definition tablet_mac : string := "AA:BB:CC:DD:EE:02".

(** The phone is enabled, the tablet is not. *)
Definition cfg : config.Config :=
  config.with_Devices (scenario.cfg true)
    [ {| config.MAC := phone_mac; config.Name := "Phone";
         config.Enabled := true |};
      {| config.MAC := tablet_mac; config.Name := "Tablet";
         config.Enabled := false |} ].

(** The monitoring runs and tracks the phone, which is indoors. *)
Definition app : handlers.App :=
  handlers.set_deviceStates
    (handlers.set_Config scenario.logging cfg)
    {[ phone_mac := scenario.indoors ]}.

(** The controller lists the phone on the access point of the house. *)
Definition house : unifi.WirelessClient :=
  {| unifi.MAC := "aa:bb:cc:dd:ee:01"; unifi.AP_MAC := "HOUSE-MAC";
     unifi.Uptime := 100 |}.

(** The configuration file cannot be written. *)
Definition unsaved : Env :=
  {| clock := λ n, Z.of_nat n * time.Second;
     httpGet := λ _ _, Status 200;
     login := λ _, None;
     getActiveClients := λ _ _, Ok [];
     saveConfig := λ _, false |}.

(** The controller cannot be reached. *)
Definition unreachable : Env :=
  scenario.env time.Second 200 None (Err "dial tcp: connection refused").

(** The session at the controller has expired: the first fetch is answered
    with 401, the login succeeds, and the phone is then listed at the
    gate. *)
Definition expired : Env :=
  {| clock := λ n, Z.of_nat n * time.Second;
     httpGet := λ _ _, Status 200;
     login := λ _, None;
     getActiveClients := λ k _,
       match k with
       | 0%nat => Err "unexpected status code: 401"
       | _ => Ok [scenario.at_gate 10]
       end;
     saveConfig := λ _, true |}.

(** The controller accepts the login; 100 seconds pass between two
    readings of the clock. *)
Definition patient : Env :=
  scenario.env (100 * time.Second) 200 None (Ok []).

(** The world after one reading of the clock. *)
Definition later : World := advance 1 0 [] scenario.w0.

(** The world in which one entry was written to the event log. *)
Definition noted : World :=
  advance 0 0
    [database.LogEvent (skippedEntry scenario.phone "arriving")] scenario.w0.

End household.

(** ** A device tracked under a lower-case key *)

Module guest.

(** Before the monitoring starts the phone is configured, typed in lower
    case, and disabled. *)
Definition home : handlers.App :=
  {| handlers.Config :=
       config.with_Devices (scenario.cfg true)
         [ {| config.MAC := "aa:bb:cc:dd:ee:01"; config.Name := "Phone";
              config.Enabled := false |} ];
     handlers.UniFiClient := true;
     handlers.GateController := gate.NewController "";
     handlers.isMonitoring := false;
     handlers.deviceStates := ∅;
     handlers.authRetryCount := 0;
     handlers.lastAuthAttempt := time.zero;
     handlers.authRetryBackoff := 0 |}.

Definition started : handlers.App :=
  handlers.StartMonitoring scenario.empty_db home.

(** The dashboard enables the phone under its configured address. *)
Definition enabled : Z * handlers.App * World :=
  handlers.UpdateDeviceHandler "aa:bb:cc:dd:ee:01"
    (Some {| handlers.upd_Name := "Phone"; handlers.upd_Enabled := true |})
    started scenario.working scenario.w0.

(** The next poll finds the phone at the gate, associated for 10 seconds,
    under the very address it is configured and tracked with. *)
Definition polled : handlers.App * World :=
  handlers.pollUniFi ["aa:bb:cc:dd:ee:01"] (snd (fst enabled))
    (scenario.listed 10) scenario.w0.

(** A client list that names the phone twice: at the gate first, then on
    the access point of the house. *)
Definition twice : list unifi.WirelessClient :=
  [ scenario.at_gate 10;
    {| unifi.MAC := "aa:bb:cc:dd:ee:01"; unifi.AP_MAC := "HOUSE-MAC";
       unifi.Uptime := 100 |} ].

End guest.

(** * Properties *)

Import handlers.

(** ** Arithmetic of durations *)

Lemma wrap64_range z : - 2 ^ 63 ≤ wrap64 z < 2 ^ 63.
Proof.
  unfold wrap64.
  pose proof (Z.mod_pos_bound (z + 2 ^ 63) (2 ^ 64) ltac:(lia)). lia.
Qed.

Lemma wrap64_id z : - 2 ^ 63 ≤ z < 2 ^ 63 → wrap64 z = z.
Proof.
  intros Hz. unfold wrap64.
  rewrite Z.mod_small; lia.
Qed.


(** The cooldown is [open_duration] minutes as long as that many
    nanoseconds fit an [int64]. *)
Lemma cooldownDuration_minutes app :
  0 ≤ config.OpenDuration (config.Gate (Config app)) ≤ 153722867 →
  cooldownDuration app =
    config.OpenDuration (config.Gate (Config app)) * 60 * 1000000000.
Proof.
  intros H. unfold cooldownDuration, time.Mul, time.Minute, time.Second.
  rewrite wrap64_id; lia.
Qed.

(** A device that never triggered the gate is past any cooldown once the
    clock shows a date later than the year 293. *)
Lemma never_triggered_no_cooldown app now :
  - 52900000000 * time.Second ≤ now →
  ¬ time.Sub now time.zero < cooldownDuration app.
Proof.
  intros Hnow. unfold cooldownDuration, time.Mul.
  pose proof (wrap64_range
    (config.OpenDuration (config.Gate (Config app)) * time.Minute)).
  unfold time.Sub, time.zero, time.minDuration, time.maxDuration,
    time.Second in *.
  repeat case_match; lia.
Qed.

(** ** The actuator *)

Lemma OpenGate_unconfigured c env w :
  gate.triggerURL c = "" →
  gate.OpenGate c env w = (Some gate.NotConfigured, w).
Proof. intros H. unfold gate.OpenGate. rewrite H. reflexivity. Qed.

Lemma OpenGate_request c env w :
  gate.triggerURL c ≠ "" →
  gate.OpenGate c env w =
    (match httpGet env (httpGets w) (gate.triggerURL c) with
     | Transport e => Some (gate.TriggerFailed e)
     | Status code =>
         if code =? 200 then None else Some (gate.BadStatus code)
     end,
     advance 0 1 [] w).
Proof.
  intros H. unfold gate.OpenGate.
  destruct (String.eqb_spec (gate.triggerURL c) "") as [E|_]; [done|].
  unfold bind, http_Get, advance, ret, http.StatusOK. cbn.
  rewrite app_nil_r.
  destruct (httpGet env (httpGets w) (gate.triggerURL c)) as [e|code];
    [reflexivity|].
  destruct (code =? 200); reflexivity.
Qed.

(** The actuator is asked at most once, and the world only moves on by
    that request. *)
Lemma OpenGate_world c env w :
  snd (gate.OpenGate c env w) = w ∨
  snd (gate.OpenGate c env w) = advance 0 1 [] w.
Proof.
  destruct (String.eqb_spec (gate.triggerURL c) "") as [E|E].
  - left. by rewrite OpenGate_unconfigured.
  - right. by rewrite OpenGate_request.
Qed.

(** C10.  [OpenGate] with an empty trigger URL reports an error and sends
    no HTTP request; with a trigger URL it sends one GET and succeeds
    exactly when a response arrives whose status is 200: a transport error
    and every other status, other 2xx codes included, are errors. *)
Theorem OpenGate_succeeds_iff_status_200 (c : gate.Controller)
    (env : Env) (w : World) :
  (gate.triggerURL c = "" →
     gate.OpenGate c env w = (Some gate.NotConfigured, w)) ∧
  (gate.triggerURL c ≠ "" →
     httpGets (snd (gate.OpenGate c env w)) = S (httpGets w) ∧
     (fst (gate.OpenGate c env w) = None ↔
        httpGet env (httpGets w) (gate.triggerURL c) = Status 200)).
Proof.
  split; [apply OpenGate_unconfigured|].
  intros H. rewrite (OpenGate_request _ _ _ H). cbn. split; [done|].
  destruct (httpGet env (httpGets w) (gate.triggerURL c)) as [e|code].
  - split; discriminate.
  - destruct (Z.eqb_spec code 200) as [->|Hne]; [done|].
    split; [discriminate|]. intros [=]. done.
Qed.

Lemma OpenGate_succeeds_iff_status_200_witness :
  gate.OpenGate (gate.NewController "") (scenario.env 1 200 None (Ok []))
    scenario.w0 = (Some gate.NotConfigured, scenario.w0) ∧
  httpGets (snd (gate.OpenGate (gate.NewController "http://shelly/relay/0?turn=on")
                   (scenario.env 1 204 None (Ok [])) scenario.w0)) = 1%nat ∧
  (fst (gate.OpenGate (gate.NewController "http://shelly/relay/0?turn=on")
          (scenario.env 1 204 None (Ok [])) scenario.w0) = None ↔
   Status 204 = Status 200).
Proof.
  split.
  - apply (proj1 (OpenGate_succeeds_iff_status_200 (gate.NewController "")
                    (scenario.env 1 200 None (Ok [])) scenario.w0)).
    reflexivity.
  - apply (proj2 (OpenGate_succeeds_iff_status_200
                    (gate.NewController "http://shelly/relay/0?turn=on")
                    (scenario.env 1 204 None (Ok [])) scenario.w0)).
    discriminate.
Defined.

(** ** The gate trigger controller *)


Lemma logEvent_run app entry env w :
  logEvent app entry env w = (tt, advance 0 0 (activity app entry) w).
Proof.
  unfold logEvent, activity, advance, db, ret.
  destruct (logActivity app); cbn; [done|].
  rewrite app_nil_r. by destruct w.
Qed.

Lemma advance_advance r1 g1 c1 r2 g2 c2 w :
  advance r2 g2 c2 (advance r1 g1 c1 w) =
  advance (r2 + r1) (g2 + g1) (c1 ++ c2) w.
Proof.
  unfold advance. cbn. f_equal; try lia. by rewrite app_assoc.
Qed.

Lemma time_Since_run t env w :
  time_Since t env w =
    (time.Sub (clock env (clockReads w)) t, advance 1 0 [] w).
Proof.
  unfold time_Since, time_Now, bind, ret, advance. cbn.
  by rewrite app_nil_r.
Qed.

Lemma time_Now_run env w :
  time_Now env w = (clock env (clockReads w), advance 1 0 [] w).
Proof. unfold time_Now, advance. cbn. by rewrite app_nil_r. Qed.

Lemma db_run c env w : db c env w = (tt, advance 0 0 [c] w).
Proof. reflexivity. Qed.

(** Within the cooldown the event is skipped. *)
Lemma checkAndOpenGate_skip app state direction env w :
  time.Sub (clock env (clockReads w)) (LastGateTrigger state)
    < cooldownDuration app →
  checkAndOpenGate app state direction env w =
    (state, advance 2 0 (activity app (skippedEntry state direction)) w).
Proof.
  intros H. unfold checkAndOpenGate, bind.
  rewrite time_Since_run.
  destruct (Z.ltb_spec (time.Sub (clock env (clockReads w))
                          (LastGateTrigger state)) (cooldownDuration app));
    [|lia].
  rewrite time_Since_run, logEvent_run. unfold ret.
  by rewrite !advance_advance.
Qed.

(** Past the cooldown the actuator is called; when it fails the state is
    kept. *)
Lemma checkAndOpenGate_failure app state direction env w e :
  ¬ time.Sub (clock env (clockReads w)) (LastGateTrigger state)
      < cooldownDuration app →
  fst (gate.OpenGate (GateController app) env (advance 1 0 [] w)) = Some e →
  checkAndOpenGate app state direction env w =
    (state,
     advance 0 0 (activity app (errorEntry state direction e))
       (snd (gate.OpenGate (GateController app) env (advance 1 0 [] w)))).
Proof.
  intros H He. unfold checkAndOpenGate, bind.
  rewrite time_Since_run.
  destruct (Z.ltb_spec (time.Sub (clock env (clockReads w))
                          (LastGateTrigger state)) (cooldownDuration app));
    [lia|].
  destruct (gate.OpenGate (GateController app) env (advance 1 0 [] w))
    as [r w'].
  cbn [fst snd] in He |- *. subst r. by rewrite logEvent_run.
Qed.

(** Past the cooldown, when the actuator succeeds, the trigger time is the
    next reading of the clock. *)
Lemma checkAndOpenGate_success app state direction env w :
  ¬ time.Sub (clock env (clockReads w)) (LastGateTrigger state)
      < cooldownDuration app →
  fst (gate.OpenGate (GateController app) env (advance 1 0 [] w)) = None →
  checkAndOpenGate app state direction env w =
    (set_LastGateTrigger state (clock env (S (clockReads w))),
     advance 1 0
       (database.UpdateLastGateTrigger (MAC state)
          :: activity app (triggeredEntry state direction))
       (snd (gate.OpenGate (GateController app) env (advance 1 0 [] w)))).
Proof.
  intros H He. unfold checkAndOpenGate, bind.
  rewrite time_Since_run.
  destruct (Z.ltb_spec (time.Sub (clock env (clockReads w))
                          (LastGateTrigger state)) (cooldownDuration app));
    [lia|].
  pose proof (OpenGate_world (GateController app) env (advance 1 0 [] w))
    as Hw.
  destruct (gate.OpenGate (GateController app) env (advance 1 0 [] w))
    as [r w'].
  cbn [fst snd] in He, Hw |- *. subst r.
  rewrite time_Now_run, db_run, logEvent_run. unfold ret.
  rewrite !advance_advance.
  destruct Hw as [->| ->]; reflexivity.
Qed.




(** C2, as amended.  When an event is past the cooldown the actuator is
    called.  If the call fails, the device state and with it
    [LastGateTrigger] stay as they are, and a [gate_error] entry whose
    message is the text of the failure is recorded when activity logging
    is enabled.  If the call succeeds, [LastGateTrigger] becomes the time
    read right after the call and no other field changes, the database is
    asked to update the trigger time of the device, and a
    [gate_triggered] entry is recorded when activity logging is enabled.
    With logging disabled no entry is recorded in either case. *)
Theorem checkAndOpenGate_outcome (app : App) (state : DeviceState)
    (direction : string) (env : Env) (w : World) :
  ¬ time.Sub (clock env (clockReads w)) (LastGateTrigger state)
      < cooldownDuration app →
  let called := gate.OpenGate (GateController app) env (advance 1 0 [] w) in
  (∀ e, fst called = Some e →
     checkAndOpenGate app state direction env w =
       (state,
        advance 0 0
          (if config.LogActivity (config.Gate (Config app)) then
             [database.LogEvent
                {| database.DeviceMAC := MAC state;
                   database.DeviceName := Name state;
                   database.Event := "gate_error";
                   database.Direction := direction;
                   database.FromAP := "";
                   database.ToAP := "";
                   database.GateOpened := false;
                   database.Message := gate.Error_text e |}]
           else [])
          (snd called))) ∧
  (fst called = None →
     checkAndOpenGate app state direction env w =
       ({| MAC := MAC state; Name := Name state;
           CurrentAP := CurrentAP state; PreviousAP := PreviousAP state;
           LastSeen := LastSeen state; IsConnected := IsConnected state;
           LastGateTrigger := clock env (S (clockReads w)) |},
        advance 1 0
          (database.UpdateLastGateTrigger (MAC state) ::
           (if config.LogActivity (config.Gate (Config app)) then
              [database.LogEvent
                 {| database.DeviceMAC := MAC state;
                    database.DeviceName := Name state;
                    database.Event := "gate_triggered";
                    database.Direction := direction;
                    database.FromAP := "";
                    database.ToAP := "";
                    database.GateOpened := true;
                    database.Message := "Gate opened successfully" |}]
            else []))
          (snd called))).
Proof.
  intros Hpast called. split.
  - intros e He. by apply checkAndOpenGate_failure.
  - intros He. by apply checkAndOpenGate_success.
Qed.

Lemma checkAndOpenGate_outcome_witness :
  checkAndOpenGate scenario.logging scenario.phone "arriving"
      scenario.failing scenario.w0 =
    ({| MAC := "AA:BB:CC:DD:EE:01"; Name := "Phone"; CurrentAP := "";
        PreviousAP := ""; LastSeen := time.zero; IsConnected := false;
        LastGateTrigger := time.zero |},
     {| clockReads := 1; httpGets := 1; logins := 0; fetches := 0;
        saves := 0;
        dbCalls :=
          [database.LogEvent
             {| database.DeviceMAC := "AA:BB:CC:DD:EE:01";
                database.DeviceName := "Phone";
                database.Event := "gate_error";
                database.Direction := "arriving";
                database.FromAP := "";
                database.ToAP := "";
                database.GateOpened := false;
                database.Message := "gate trigger returned status 503" |}]
     |}) ∧
  checkAndOpenGate scenario.logging scenario.phone "arriving"
      scenario.working scenario.w0 =
    ({| MAC := "AA:BB:CC:DD:EE:01"; Name := "Phone"; CurrentAP := "";
        PreviousAP := ""; LastSeen := time.zero; IsConnected := false;
        LastGateTrigger := 1000000000 |},
     {| clockReads := 2; httpGets := 1; logins := 0; fetches := 0;
        saves := 0;
        dbCalls :=
          [database.UpdateLastGateTrigger "AA:BB:CC:DD:EE:01";
           database.LogEvent
             {| database.DeviceMAC := "AA:BB:CC:DD:EE:01";
                database.DeviceName := "Phone";
                database.Event := "gate_triggered";
                database.Direction := "arriving";
                database.FromAP := "";
                database.ToAP := "";
                database.GateOpened := true;
                database.Message := "Gate opened successfully" |}] |}).
Proof.
  split.
  - etrans.
    + apply (proj1 (checkAndOpenGate_outcome scenario.logging scenario.phone
                      "arriving" scenario.failing scenario.w0
                      ltac:(by vm_compute))
               (gate.BadStatus 503)).
      reflexivity.
    + by vm_compute.
  - etrans.
    + apply (proj2 (checkAndOpenGate_outcome scenario.logging scenario.phone
                      "arriving" scenario.working scenario.w0
                      ltac:(by vm_compute))).
      reflexivity.
    + by vm_compute.
Defined.

(** With activity logging off, neither a failed nor a successful actuator
    call leaves an entry in the event log. *)
Lemma checkAndOpenGate_outcome_counterexample :
  (httpGets (snd (checkAndOpenGate scenario.silent scenario.phone "arriving"
                    scenario.failing scenario.w0)) = 1%nat ∧
   LastGateTrigger (fst (checkAndOpenGate scenario.silent scenario.phone
                           "arriving" scenario.failing scenario.w0))
     = time.zero ∧
   existsb (logs_event "gate_error")
     (dbCalls (snd (checkAndOpenGate scenario.silent scenario.phone
                      "arriving" scenario.failing scenario.w0))) = false) ∧
  (LastGateTrigger (fst (checkAndOpenGate scenario.silent scenario.phone
                           "arriving" scenario.working scenario.w0))
     = time.Second ∧
   existsb (logs_event "gate_triggered")
     (dbCalls (snd (checkAndOpenGate scenario.silent scenario.phone
                      "arriving" scenario.working scenario.w0))) = false).
Proof. by vm_compute. Qed.

(** ** Auth resilience *)

Lemma unifi_Login_run env w :
  unifi_Login env w =
    (login env (logins w),
     {| clockReads := clockReads w; httpGets := httpGets w;
        logins := S (logins w); fetches := fetches w; saves := saves w;
        dbCalls := dbCalls w |}).
Proof. reflexivity. Qed.


Lemma reauthenticate_blocked app env w :
  time.Sub (clock env (clockReads w)) (lastAuthAttempt app)
    < authRetryBackoff app →
  reauthenticateWithBackoff app env w =
    ((app,
      Some (BackoffInEffect
              (wrap64 (authRetryBackoff app -
                       time.Sub (clock env (S (clockReads w)))
                         (lastAuthAttempt app))))),
     advance 2 0 [] w).
Proof.
  intros H. unfold reauthenticateWithBackoff, bind.
  rewrite time_Since_run.
  destruct (Z.ltb_spec (time.Sub (clock env (clockReads w))
                          (lastAuthAttempt app)) (authRetryBackoff app));
    [|lia].
  rewrite time_Since_run. unfold ret. by rewrite advance_advance.
Qed.

Lemma reauthenticate_attempt app env w :
  ¬ time.Sub (clock env (clockReads w)) (lastAuthAttempt app)
      < authRetryBackoff app →
  fst (reauthenticateWithBackoff app env w) =
    match login env (logins w) with
    | Some e =>
        (set_auth app (wrap64 (authRetryCount app + 1))
           (clock env (S (clockReads w)))
           (nextBackoff (wrap64 (authRetryCount app + 1))),
         Some (LoginFailed e))
    | None => (set_auth app 0 (clock env (S (clockReads w))) 0, None)
    end ∧
  logins (snd (reauthenticateWithBackoff app env w)) = S (logins w).
Proof.
  intros H. unfold reauthenticateWithBackoff, bind.
  rewrite time_Since_run.
  destruct (Z.ltb_spec (time.Sub (clock env (clockReads w))
                          (lastAuthAttempt app)) (authRetryBackoff app));
    [lia|].
  rewrite time_Now_run, unifi_Login_run. cbn [logins advance].
  destruct (login env (logins w)); split; reflexivity.
Qed.

(** A call that reports a failed login was an attempt. *)
Lemma reauthenticate_failed_inv app env w app' e w' :
  reauthenticateWithBackoff app env w = ((app', Some (LoginFailed e)), w') →
  authRetryCount app' = wrap64 (authRetryCount app + 1) ∧
  authRetryBackoff app' = nextBackoff (wrap64 (authRetryCount app + 1)).
Proof.
  intros Hrun.
  destruct (Z.lt_ge_cases
              (time.Sub (clock env (clockReads w)) (lastAuthAttempt app))
              (authRetryBackoff app)) as [Hin|Hout].
  - rewrite (reauthenticate_blocked _ _ _ Hin) in Hrun. discriminate.
  - destruct (reauthenticate_attempt app env w ltac:(lia)) as [Hfst _].
    rewrite Hrun in Hfst. cbn [fst] in Hfst.
    destruct (login env (logins w)); [|discriminate].
    injection Hfst as -> _. done.
Qed.

(** As long as [2^(count-1)] seconds fit an [int64] number of nanoseconds
    the backoff is the capped power of two. *)
Lemma nextBackoff_capped count :
  1 ≤ count ≤ 34 →
  nextBackoff count = Z.min (2 ^ (count - 1) * time.Second) (64 * time.Second).
Proof.
  intros H. unfold nextBackoff, time.Mul, shl64, uint_of_int.
  rewrite (wrap64_id (count - 1)) by lia.
  rewrite (Z.mod_small (count - 1)) by lia.
  destruct (Z.ltb_spec (count - 1) 64); [|lia].
  rewrite Z.shiftl_1_l.
  assert (1 ≤ 2 ^ (count - 1) ≤ 2 ^ 33) as Hp.
  { split.
    - apply (Z.pow_le_mono_r 2 0 (count - 1)); lia.
    - apply Z.pow_le_mono_r; lia. }
  change (2 ^ 33) with 8589934592 in Hp.
  rewrite (wrap64_id (2 ^ (count - 1))) by lia.
  unfold time.Second. rewrite wrap64_id by lia.
  destruct (Z.ltb_spec (64 * 1000000000) (2 ^ (count - 1) * 1000000000)); lia.
Qed.


Lemma failedAttempts_count n app app' :
  failedAttempts n app app' →
  authRetryCount app = 0 →
  (n ≤ 34)%nat →
  authRetryCount app' = Z.of_nat n ∧
  (1 ≤ Z.of_nat n →
   authRetryBackoff app' =
     Z.min (2 ^ (Z.of_nat n - 1) * time.Second) (64 * time.Second)).
Proof.
  induction 1 as [app|n app app1 app2 env w e w' Hn IH Hrun];
    intros Hzero Hle.
  - split; [done|lia].
  - destruct IH as [Hcount _]; [done|lia|].
    destruct (reauthenticate_failed_inv _ _ _ _ _ _ Hrun) as [Hc Hb].
    rewrite Hcount in Hc, Hb.
    rewrite wrap64_id in Hc, Hb by lia.
    split; [lia|]. intros _.
    rewrite Hb, nextBackoff_capped by lia.
    by replace (Z.of_nat n + 1) with (Z.of_nat (S n)) by lia.
Qed.

(** Up to the 34th failure in a row the retry count and the backoff are as
    the specification has them; three failures give 1s, 2s and 4s; a
    successful login resets both. *)
Lemma reauthenticate_backoff_schedule :
  (∀ n app app',
     failedAttempts n app app' → authRetryCount app = 0 →
     (1 ≤ n ≤ 34)%nat →
     authRetryCount app' = Z.of_nat n ∧
     authRetryBackoff app' =
       Z.min (2 ^ (Z.of_nat n - 1) * time.Second) (64 * time.Second)) ∧
  (nextBackoff 1 = 1 * time.Second ∧ nextBackoff 2 = 2 * time.Second ∧
   nextBackoff 3 = 4 * time.Second) ∧
  (∀ app env w,
     ¬ time.Sub (clock env (clockReads w)) (lastAuthAttempt app)
         < authRetryBackoff app →
     login env (logins w) = None →
     authRetryCount (fst (fst (reauthenticateWithBackoff app env w))) = 0 ∧
     authRetryBackoff (fst (fst (reauthenticateWithBackoff app env w))) = 0).
Proof.
  split; [|split].
  - intros n app app' Hf Hz Hn.
    destruct (failedAttempts_count _ _ _ Hf Hz ltac:(lia)) as [Hc Hb].
    split; [done|]. apply Hb. lia.
  - by vm_compute.
  - intros app env w Hout Hlogin.
    destruct (reauthenticate_attempt app env w Hout) as [-> _].
    rewrite Hlogin. done.
Qed.

(** C5, the defect.  The 35th failed attempt in a row computes
    [2^34 * 10^9] nanoseconds, which leaves the range of an [int64]: the
    backoff stored is negative instead of 64 seconds, so that the cap does
    not apply and a negative backoff holds back no later call.  In the
    run below the controller refuses every login and each call comes 200
    seconds after the previous one, so that all 35 calls are attempts; one
    failure earlier the backoff still is 64 seconds. *)
Theorem reauthenticate_backoff_overflow :
  logins (snd (scenario.reauthenticate 35 scenario.logging
                 scenario.locked_out scenario.w0)) = 35%nat ∧
  authRetryCount (fst (scenario.reauthenticate 35 scenario.logging
                         scenario.locked_out scenario.w0)) = 35 ∧
  authRetryBackoff (fst (scenario.reauthenticate 35 scenario.logging
                           scenario.locked_out scenario.w0))
    = -1266874889709551616 ∧
  Z.min (2 ^ (35 - 1) * time.Second) (64 * time.Second) = 64000000000 ∧
  authRetryBackoff (fst (scenario.reauthenticate 34 scenario.logging
                           scenario.locked_out scenario.w0))
    = 64000000000.
Proof. by vm_compute. Qed.

(** A negative backoff holds back no call that comes after the last
    attempt. *)
Lemma reauthenticate_negative_backoff app env w :
  authRetryBackoff app < 0 →
  lastAuthAttempt app ≤ clock env (clockReads w) →
  logins (snd (reauthenticateWithBackoff app env w)) = S (logins w).
Proof.
  intros Hneg Hlater.
  apply reauthenticate_attempt.
  unfold time.Sub, time.minDuration, time.maxDuration.
  repeat case_match; lia.
Qed.

(** C6.  A call made while the time since the last attempt is strictly
    below the current backoff returns the "backoff in effect" error, which
    is not the error of a failed login; it does not call [Login], and the
    retry count, the time of the last attempt and the backoff are what they
    were. *)
Theorem reauthenticate_within_backoff (app : App) (env : Env) (w : World) :
  time.Sub (clock env (clockReads w)) (lastAuthAttempt app)
    < authRetryBackoff app →
  (∃ wait,
     snd (fst (reauthenticateWithBackoff app env w))
       = Some (BackoffInEffect wait)) ∧
  (∀ e, snd (fst (reauthenticateWithBackoff app env w))
          ≠ Some (LoginFailed e)) ∧
  logins (snd (reauthenticateWithBackoff app env w)) = logins w ∧
  fst (fst (reauthenticateWithBackoff app env w)) = app.
Proof.
  intros H. rewrite (reauthenticate_blocked _ _ _ H). cbn.
  split; [by eexists|]. split; [intros e; discriminate|]. done.
Qed.

Lemma reauthenticate_within_backoff_witness :
  (∃ wait,
     snd (fst (reauthenticateWithBackoff scenario.backing_off
                 scenario.locked_out scenario.w0))
       = Some (BackoffInEffect wait)) ∧
  (∀ e, snd (fst (reauthenticateWithBackoff scenario.backing_off
                    scenario.locked_out scenario.w0))
          ≠ Some (LoginFailed e)) ∧
  logins (snd (reauthenticateWithBackoff scenario.backing_off
                 scenario.locked_out scenario.w0)) = logins scenario.w0 ∧
  fst (fst (reauthenticateWithBackoff scenario.backing_off
              scenario.locked_out scenario.w0)) = scenario.backing_off.
Proof.
  apply (reauthenticate_within_backoff scenario.backing_off
           scenario.locked_out scenario.w0).
  by vm_compute.
Defined.

(** ** The direction classifier *)

(** C4.  A roam to the gate AP is classified [leaving] when the previous
    AP is not empty and [arriving] when it is empty; a roam from the gate
    AP to another AP is classified [arriving]; any other roam is
    [unknown].  The roam is recorded (when activity logging is on) with
    that direction, and [checkAndOpenGate] is run in the first three cases,
    that is when the new or the previous AP is the gate AP, and not run in
    the last. *)
Theorem handleDeviceRoamed_direction (app : App) (state : DeviceState)
    (fromAP toAP : string) :
  (toAP = gateAP app → fromAP ≠ "" →
     handleDeviceRoamed app state fromAP toAP =
       (logEvent app (roamedEntry state "leaving" fromAP toAP) ;;;
        checkAndOpenGate app state "leaving")) ∧
  (toAP = gateAP app → fromAP = "" →
     handleDeviceRoamed app state fromAP toAP =
       (logEvent app (roamedEntry state "arriving" fromAP toAP) ;;;
        checkAndOpenGate app state "arriving")) ∧
  (fromAP = gateAP app → toAP ≠ gateAP app →
     handleDeviceRoamed app state fromAP toAP =
       (logEvent app (roamedEntry state "arriving" fromAP toAP) ;;;
        checkAndOpenGate app state "arriving")) ∧
  (toAP ≠ gateAP app → fromAP ≠ gateAP app →
     ∀ env w,
       handleDeviceRoamed app state fromAP toAP env w =
         (state,
          advance 0 0 (activity app (roamedEntry state "unknown" fromAP toAP))
            w)).
Proof.
  unfold handleDeviceRoamed, roamedEntry.
  repeat split.
  - intros Hto Hfrom.
    apply String.eqb_eq in Hto. apply String.eqb_neq in Hfrom.
    by rewrite Hto, Hfrom.
  - intros Hto Hfrom.
    apply String.eqb_eq in Hto. apply String.eqb_eq in Hfrom.
    by rewrite Hto, Hfrom.
  - intros Hfrom Hto.
    apply String.eqb_eq in Hfrom. apply String.eqb_neq in Hto.
    by rewrite Hto, Hfrom.
  - intros Hto Hfrom env w.
    apply String.eqb_neq in Hfrom. apply String.eqb_neq in Hto.
    rewrite Hto, Hfrom. unfold bind. by rewrite logEvent_run.
Qed.

Lemma handleDeviceRoamed_direction_witness :
  handleDeviceRoamed scenario.logging scenario.indoors "HOUSE-MAC" "GATE-MAC" =
    (logEvent scenario.logging
       (roamedEntry scenario.indoors "leaving" "HOUSE-MAC" "GATE-MAC") ;;;
     checkAndOpenGate scenario.logging scenario.indoors "leaving") ∧
  handleDeviceRoamed scenario.logging scenario.indoors "" "GATE-MAC" =
    (logEvent scenario.logging
       (roamedEntry scenario.indoors "arriving" "" "GATE-MAC") ;;;
     checkAndOpenGate scenario.logging scenario.indoors "arriving") ∧
  handleDeviceRoamed scenario.logging scenario.indoors "GATE-MAC" "HOUSE-MAC" =
    (logEvent scenario.logging
       (roamedEntry scenario.indoors "arriving" "GATE-MAC" "HOUSE-MAC") ;;;
     checkAndOpenGate scenario.logging scenario.indoors "arriving") ∧
  handleDeviceRoamed scenario.logging scenario.indoors "HOUSE-MAC" "BARN-MAC"
      scenario.working scenario.w0 =
    (scenario.indoors,
     advance 0 0
       (activity scenario.logging
          (roamedEntry scenario.indoors "unknown" "HOUSE-MAC" "BARN-MAC"))
       scenario.w0).
Proof.
  split; [|split; [|split]].
  - apply (proj1 (handleDeviceRoamed_direction scenario.logging
                    scenario.indoors "HOUSE-MAC" "GATE-MAC"));
      [reflexivity|discriminate].
  - apply (proj1 (proj2 (handleDeviceRoamed_direction scenario.logging
                           scenario.indoors "" "GATE-MAC")));
      reflexivity.
  - apply (proj1 (proj2 (proj2 (handleDeviceRoamed_direction scenario.logging
                                  scenario.indoors "GATE-MAC" "HOUSE-MAC"))));
      [reflexivity|discriminate].
  - apply (proj2 (proj2 (proj2 (handleDeviceRoamed_direction scenario.logging
                                  scenario.indoors "HOUSE-MAC" "BARN-MAC"))));
      discriminate.
Defined.

(** ** The presence tracker *)

Lemma handleDeviceConnected_at_gate app state toAP fromAP :
  toAP = gateAP app →
  handleDeviceConnected app state toAP fromAP =
    (logEvent app
       (moveEntry state "connected" "arriving" fromAP toAP
          "Device connected to network") ;;;
     checkAndOpenGate app state "arriving").
Proof.
  intros H. apply String.eqb_eq in H.
  unfold handleDeviceConnected. by rewrite H.
Qed.

Lemma handleDeviceConnected_elsewhere app state toAP fromAP env w :
  toAP ≠ gateAP app →
  handleDeviceConnected app state toAP fromAP env w =
    (state,
     advance 0 0
       (activity app
          (moveEntry state "connected" "unknown" fromAP toAP
             "Device connected to network")) w).
Proof.
  intros H. apply String.eqb_neq in H.
  unfold handleDeviceConnected. rewrite H. unfold bind.
  by rewrite logEvent_run.
Qed.

(** The snapshot map holds, under an upper-cased address, the entry of the
    client list for it when the list has one such entry. *)
Lemma currentlyConnected_listed_from clients client key :
  ∀ m : gmap string unifi.WirelessClient,
    (∀ c, c ∈ clients → strings.ToUpper (unifi.MAC c) = key → c = client) →
    (client ∈ clients ∧ strings.ToUpper (unifi.MAC client) = key) ∨
      m !! key = Some client →
    foldl (λ m c, <[strings.ToUpper (unifi.MAC c) := c]> m) m clients !! key
      = Some client.
Proof.
  induction clients as [|c rest IH]; intros m Hone Hin; cbn [foldl].
  - destruct Hin as [[Hin _]|Hm]; [by apply elem_of_nil in Hin|done].
  - apply IH.
    + intros c' Hc'. apply Hone. by right.
    + destruct (decide (strings.ToUpper (unifi.MAC c) = key)) as [Hkey|Hne].
      * right. rewrite <- (Hone c ltac:(by left) Hkey), <- Hkey.
        apply lookup_insert_eq.
      * destruct Hin as [[Hin Hkey]|Hm].
        -- apply elem_of_cons in Hin as [->|Hin]; [done|]. by left.
        -- right. by rewrite lookup_insert_ne.
Qed.

Lemma currentlyConnected_listed clients client key :
  client ∈ clients →
  strings.ToUpper (unifi.MAC client) = key →
  (∀ c, c ∈ clients → strings.ToUpper (unifi.MAC c) = key → c = client) →
  currentlyConnected clients !! key = Some client.
Proof.
  intros Hin Hkey Hone. apply currentlyConnected_listed_from; [done|].
  by left.
Qed.

(** C3, as amended.  A device that is tracked under the upper-case form of
    its address, was disconnected, and has one entry in the client list,
    at the gate AP.  With an uptime strictly below 30 seconds the event is
    [connected] with direction [arriving]: the entry is recorded when
    activity logging is on, the device is handed to [checkAndOpenGate],
    and the state that comes back is marked connected at the gate AP,
    stamped with the next reading of the clock and written to the
    database.  With an uptime of 30 seconds or more nothing is recorded in
    the event log and the gate is not asked; the state is marked
    connected at the gate AP, stamped and written to the database all the
    same. *)
Theorem pollDevice_connects_at_gate (app : App)
    (clients : list unifi.WirelessClient) (mac : string)
    (state : DeviceState) (client : unifi.WirelessClient) (env : Env)
    (w : World) :
  strings.ToUpper mac = mac →
  IsConnected state = false →
  client ∈ clients →
  strings.ToUpper (unifi.MAC client) = strings.ToUpper mac →
  (∀ c, c ∈ clients →
        strings.ToUpper (unifi.MAC c) = strings.ToUpper mac → c = client) →
  unifi.AP_MAC client = config.GateAPMAC (config.UniFi (Config app)) →
  (unifi.Uptime client < 30 →
     pollDevice app (currentlyConnected clients) mac state env w =
       (let opened :=
          checkAndOpenGate app state "arriving" env
            (advance 0 0
               (if config.LogActivity (config.Gate (Config app)) then
                  [database.LogEvent
                     {| database.DeviceMAC := MAC state;
                        database.DeviceName := Name state;
                        database.Event := "connected";
                        database.Direction := "arriving";
                        database.FromAP := "nowhere";
                        database.ToAP :=
                          config.GateAPMAC (config.UniFi (Config app));
                        database.GateOpened := false;
                        database.Message := "Device connected to network" |}]
                else []) w) in
        ({| MAC := MAC (fst opened); Name := Name (fst opened);
            CurrentAP := config.GateAPMAC (config.UniFi (Config app));
            PreviousAP := PreviousAP (fst opened);
            LastSeen := clock env (clockReads (snd opened));
            IsConnected := true;
            LastGateTrigger := LastGateTrigger (fst opened) |},
         advance 1 0
           [database.UpdateDeviceState mac
              (config.GateAPMAC (config.UniFi (Config app))) true]
           (snd opened)))) ∧
  (30 ≤ unifi.Uptime client →
     pollDevice app (currentlyConnected clients) mac state env w =
       ({| MAC := MAC state; Name := Name state;
           CurrentAP := config.GateAPMAC (config.UniFi (Config app));
           PreviousAP := PreviousAP state;
           LastSeen := clock env (clockReads w);
           IsConnected := true;
           LastGateTrigger := LastGateTrigger state |},
        advance 1 0
          [database.UpdateDeviceState mac
             (config.GateAPMAC (config.UniFi (Config app))) true] w)).
Proof.
  intros Hupper Hoff Hin Hkey Hone Hgate. rewrite Hupper in Hkey, Hone.
  unfold pollDevice.
  rewrite (currentlyConnected_listed clients client mac Hin Hkey Hone), Hoff.
  fold (gateAP app) in Hgate |- *. rewrite Hgate. cbn [negb].
  rewrite String.eqb_refl. cbn [andb negb].
  split.
  - intros Hfresh.
    destruct (Z.ltb_spec (unifi.Uptime client) 30); [|lia].
    rewrite handleDeviceConnected_at_gate by done.
    unfold bind at 1 2. rewrite logEvent_run.
    fold (logActivity app).
    change (if logActivity app then _ else _)
      with (activity app
              (moveEntry state "connected" "arriving" "nowhere" (gateAP app)
                 "Device connected to network")).
    cbv zeta.
    destruct (checkAndOpenGate app state "arriving" env _) as [state1 w1].
    unfold bind, ret. by rewrite time_Now_run, db_run, advance_advance.
  - intros Hparked.
    destruct (Z.ltb_spec (unifi.Uptime client) 30); [lia|].
    unfold bind, ret. rewrite time_Now_run, db_run.
    by rewrite advance_advance.
Qed.

Lemma pollDevice_connects_at_gate_witness :
  pollDevice scenario.logging (currentlyConnected [scenario.at_gate 10])
      "AA:BB:CC:DD:EE:01" scenario.phone scenario.working scenario.w0 =
    ({| MAC := "AA:BB:CC:DD:EE:01"; Name := "Phone";
        CurrentAP := "GATE-MAC"; PreviousAP := "";
        LastSeen := 2000000000; IsConnected := true;
        LastGateTrigger := 1000000000 |},
     {| clockReads := 3; httpGets := 1; logins := 0; fetches := 0;
        saves := 0;
        dbCalls :=
          [database.LogEvent
             {| database.DeviceMAC := "AA:BB:CC:DD:EE:01";
                database.DeviceName := "Phone";
                database.Event := "connected";
                database.Direction := "arriving";
                database.FromAP := "nowhere";
                database.ToAP := "GATE-MAC";
                database.GateOpened := false;
                database.Message := "Device connected to network" |};
           database.UpdateLastGateTrigger "AA:BB:CC:DD:EE:01";
           database.LogEvent
             {| database.DeviceMAC := "AA:BB:CC:DD:EE:01";
                database.DeviceName := "Phone";
                database.Event := "gate_triggered";
                database.Direction := "arriving";
                database.FromAP := "";
                database.ToAP := "";
                database.GateOpened := true;
                database.Message := "Gate opened successfully" |};
           database.UpdateDeviceState "AA:BB:CC:DD:EE:01" "GATE-MAC" true]
     |}) ∧
  pollDevice scenario.logging (currentlyConnected [scenario.at_gate 45])
      "AA:BB:CC:DD:EE:01" scenario.phone scenario.working scenario.w0 =
    ({| MAC := "AA:BB:CC:DD:EE:01"; Name := "Phone";
        CurrentAP := "GATE-MAC"; PreviousAP := "";
        LastSeen := 0; IsConnected := true;
        LastGateTrigger := time.zero |},
     {| clockReads := 1; httpGets := 0; logins := 0; fetches := 0;
        saves := 0;
        dbCalls :=
          [database.UpdateDeviceState "AA:BB:CC:DD:EE:01" "GATE-MAC" true]
     |}).
Proof.
  split.
  - etrans.
    + refine (proj1 (pollDevice_connects_at_gate scenario.logging
                       [scenario.at_gate 10] "AA:BB:CC:DD:EE:01"
                       scenario.phone (scenario.at_gate 10) scenario.working
                       scenario.w0 _ _ _ _ _ _) _).
      * by vm_compute.
      * reflexivity.
      * by left.
      * by vm_compute.
      * intros c Hc _. by apply list_elem_of_singleton in Hc.
      * reflexivity.
      * by vm_compute.
    + by vm_compute.
  - etrans.
    + refine (proj2 (pollDevice_connects_at_gate scenario.logging
                       [scenario.at_gate 45] "AA:BB:CC:DD:EE:01"
                       scenario.phone (scenario.at_gate 45) scenario.working
                       scenario.w0 _ _ _ _ _ _) _).
      * by vm_compute.
      * reflexivity.
      * by left.
      * by vm_compute.
      * intros c Hc _. by apply list_elem_of_singleton in Hc.
      * reflexivity.
      * by vm_compute.
    + by vm_compute.
Defined.

(** The three provisos of C3.  (1) A device that the dashboard enabled
    under a lower-case address is tracked under that address as its key,
    which no entry of the snapshot map meets: listed at the gate AP under
    its very address, associated for 10 seconds, it gets no event, no gate
    request and no update of its state.  (2) A client list that names the
    device twice counts by its last entry: listed at the gate AP and on
    the access point of the house, the device is connected in the house
    with direction [unknown] and the gate is not asked.  (3) With activity
    logging off the arrival opens the gate and leaves no [connected]
    entry. *)
Lemma pollDevice_connects_at_gate_counterexample :
  (session (snd (fst guest.enabled)) ∧
   fst (fst guest.enabled) = 200 ∧
   deviceStates (snd (fst guest.enabled)) =
     {[ "aa:bb:cc:dd:ee:01" :=
          {| MAC := "aa:bb:cc:dd:ee:01"; Name := "Phone"; CurrentAP := "";
             PreviousAP := ""; LastSeen := time.zero; IsConnected := false;
             LastGateTrigger := time.zero |} ]} ∧
   getActiveClients (scenario.listed 10) 0 "default" =
     Ok [ {| unifi.MAC := "aa:bb:cc:dd:ee:01"; unifi.AP_MAC := "GATE-MAC";
             unifi.Uptime := 10 |} ] ∧
   config.GateAPMAC (config.UniFi (Config (snd (fst guest.enabled))))
     = "GATE-MAC" ∧
   deviceStates (fst guest.polled) = deviceStates (snd (fst guest.enabled)) ∧
   fetches (snd guest.polled) = 1%nat ∧
   httpGets (snd guest.polled) = 0%nat ∧
   dbCalls (snd guest.polled) = []) ∧
  (IsConnected scenario.phone = false ∧
   CurrentAP (fst (pollDevice scenario.logging
                     (currentlyConnected guest.twice) "AA:BB:CC:DD:EE:01"
                     scenario.phone scenario.working scenario.w0))
     = "HOUSE-MAC" ∧
   eventKinds (dbCalls (snd (pollDevice scenario.logging
                               (currentlyConnected guest.twice)
                               "AA:BB:CC:DD:EE:01" scenario.phone
                               scenario.working scenario.w0)))
     = [("connected", "unknown")] ∧
   httpGets (snd (pollDevice scenario.logging
                    (currentlyConnected guest.twice) "AA:BB:CC:DD:EE:01"
                    scenario.phone scenario.working scenario.w0)) = 0%nat) ∧
  (httpGets (snd (pollDevice scenario.silent
                    (currentlyConnected [scenario.at_gate 10])
                    "AA:BB:CC:DD:EE:01" scenario.phone scenario.working
                    scenario.w0)) = 1%nat ∧
   existsb (logs_event "connected")
     (dbCalls (snd (pollDevice scenario.silent
                      (currentlyConnected [scenario.at_gate 10])
                      "AA:BB:CC:DD:EE:01" scenario.phone scenario.working
                      scenario.w0))) = false).
Proof.
  split; [|by vm_compute].
  split; [|by vm_compute].
  apply session_update. apply session_start. reflexivity.
Qed.

(** The walk-through of the specification: [connected]/[arriving] and
    [gate_triggered] at the first poll, nothing at the second,
    [disconnected] at the third, [connected]/[arriving] and [gate_skipped]
    at the fourth; the gate is called once. *)
Example four_polls_events :
  eventKinds (dbCalls (snd (scenario.four_polls scenario.visit scenario.w0)))
    = [("connected", "arriving"); ("gate_triggered", "arriving");
       ("disconnected", "");
       ("connected", "arriving"); ("gate_skipped", "arriving")] ∧
  httpGets (snd (scenario.four_polls scenario.visit scenario.w0)) = 1%nat.
Proof. by vm_compute. Qed.

(** ** Replaying a snapshot *)

Lemma refreshed_refl state : refreshed state state.
Proof. by repeat split. Qed.

Lemma refreshed_trans s1 s2 s3 :
  refreshed s1 s2 → refreshed s2 s3 → refreshed s1 s3.
Proof.
  intros (?&?&?&?&?&?&Hseen1) (?&?&?&?&Hc&?&Hseen2).
  repeat split; try congruence.
  intros Hoff. rewrite Hseen2, Hseen1; congruence.
Qed.

Lemma quiet_refl w : quiet w w.
Proof. repeat split. exists []. by rewrite app_nil_r. Qed.

Lemma quiet_trans w1 w2 w3 : quiet w1 w2 → quiet w2 w3 → quiet w1 w3.
Proof.
  intros (Hg1 & Hl1 & c1 & Hc1 & Hf1) (Hg2 & Hl2 & c2 & Hc2 & Hf2).
  split; [congruence|]. split; [congruence|].
  exists (c1 ++ c2). split.
  - by rewrite Hc2, Hc1, app_assoc.
  - rewrite forallb_app, Hf1, Hf2. done.
Qed.

(** Whatever the device was, after its turn in the loop it agrees with the
    snapshot. *)
Lemma pollDevice_settled app connected mac state env w :
  settled connected mac (fst (pollDevice app connected mac state env w)).
Proof.
  unfold settled, pollDevice.
  destruct (connected !! mac) as [client|].
  - unfold bind.
    match goal with
    | |- context [let '(_, _) := ?run in _] => destruct run as [state1 w1]
    end.
    rewrite time_Now_run, db_run. cbn. done.
  - destruct (IsConnected state) eqn:Hon; [|done].
    unfold bind, handleDeviceDisconnected.
    rewrite logEvent_run, db_run. cbn. done.
Qed.

(** A device that agrees with the snapshot raises no event: when it is
    listed, its [LastSeen] is refreshed and the state persisted; when it is
    not, nothing happens. *)
Lemma pollDevice_quiet app connected mac state env w :
  settled connected mac state →
  refreshed state (fst (pollDevice app connected mac state env w)) ∧
  quiet w (snd (pollDevice app connected mac state env w)).
Proof.
  unfold settled, pollDevice.
  destruct (connected !! mac) as [client|].
  - intros [Hon Hap]. rewrite Hon. cbn [negb].
    rewrite Hap, String.eqb_refl. cbn [negb].
    unfold bind, ret. rewrite time_Now_run, db_run. cbn [fst snd].
    split.
    + repeat split; cbn; try done. congruence.
    + repeat split. exists [database.UpdateDeviceState mac
                              (unifi.AP_MAC client) true].
      split; [|done]. cbn. by rewrite app_nil_r.
  - intros ->. split; [apply refreshed_refl|apply quiet_refl].
Qed.

(** The loop neither adds nor removes a key. *)
Lemma rangeDevices_dom app connected order :
  ∀ states env w mac,
    is_Some (fst (rangeDevices app connected order states env w) !! mac) ↔
    is_Some (states !! mac).
Proof.
  induction order as [|k rest IH]; intros states env w mac; [done|].
  cbn [rangeDevices].
  destruct (states !! k) as [state|] eqn:Hk; [|apply IH].
  unfold bind.
  destruct (pollDevice app connected k state env w) as [state1 w1].
  rewrite IH.
  destruct (decide (k = mac)) as [->|Hne].
  - rewrite lookup_insert_eq, Hk. split; eauto.
  - by rewrite lookup_insert_ne.
Qed.

(** After the loop, every device visited agrees with the snapshot, and so
    does every device that agreed before. *)
Lemma rangeDevices_settled app connected order :
  ∀ states env w mac state',
    fst (rangeDevices app connected order states env w) !! mac = Some state' →
    (mac ∈ order ∨ ∃ state, states !! mac = Some state ∧
                            settled connected mac state) →
    settled connected mac state'.
Proof.
  induction order as [|k rest IH]; intros states env w mac state' Hres Hin.
  - cbn in Hres. destruct Hin as [Hin|(state & Hs & Hset)].
    + by apply elem_of_nil in Hin.
    + congruence.
  - cbn [rangeDevices] in Hres.
    destruct (states !! k) as [state|] eqn:Hk.
    + unfold bind in Hres.
      pose proof (pollDevice_settled app connected k state env w) as Hset.
      destruct (pollDevice app connected k state env w) as [state1 w1].
      cbn [fst] in Hset.
      apply (IH _ _ _ _ _ Hres).
      destruct (decide (mac = k)) as [->|Hne].
      * right. exists state1. by rewrite lookup_insert_eq.
      * destruct Hin as [Hin|(s & Hs & Hss)].
        -- left. apply elem_of_cons in Hin as [?|?]; [done|done].
        -- right. exists s. by rewrite lookup_insert_ne.
    + apply (IH _ _ _ _ _ Hres).
      destruct Hin as [Hin|?]; [|by right].
      apply elem_of_cons in Hin as [->|?]; [|by left].
      assert (is_Some (states !! k)) as [? Hsome]; [|congruence].
      apply (rangeDevices_dom app connected rest states env w k). eauto.
Qed.

(** A device that agrees with the snapshot gets no handler. *)
Lemma pollDevice_refresh app connected mac state :
  settled connected mac state →
  pollDevice app connected mac state = refreshDevice connected mac state.
Proof.
  unfold settled, pollDevice, refreshDevice.
  destruct (connected !! mac) as [client|].
  - intros [Hon Hap]. rewrite Hon. cbn [negb].
    rewrite Hap, String.eqb_refl. reflexivity.
  - by intros ->.
Qed.

Lemma rangeDevices_refresh app connected order :
  ∀ states env w,
    (∀ mac state, states !! mac = Some state → settled connected mac state) →
    rangeDevices app connected order states env w =
    refreshDevices connected order states env w.
Proof.
  induction order as [|k rest IH]; intros states env w Hall; [done|].
  cbn [rangeDevices refreshDevices].
  destruct (states !! k) as [state|] eqn:Hk; [|by apply IH].
  unfold bind.
  pose proof (pollDevice_settled app connected k state env w) as Hset.
  rewrite (pollDevice_refresh app connected k state (Hall _ _ Hk)) in Hset |- *.
  destruct (refreshDevice connected k state env w) as [state1 w1].
  apply IH. intros mac s. destruct (decide (k = mac)) as [->|Hne].
  - rewrite lookup_insert_eq. by intros [= <-].
  - rewrite lookup_insert_ne by done. apply Hall.
Qed.

(** On a registry that agrees with the snapshot the loop is quiet. *)
Lemma rangeDevices_quiet app connected order :
  ∀ states env w,
    (∀ mac state, states !! mac = Some state → settled connected mac state) →
    quiet w (snd (rangeDevices app connected order states env w)) ∧
    ∀ mac,
      option_Forall2 refreshed (states !! mac)
        (fst (rangeDevices app connected order states env w) !! mac).
Proof.
  induction order as [|k rest IH]; intros states env w Hall.
  - split; [apply quiet_refl|]. intros mac. cbn.
    destruct (states !! mac); constructor. apply refreshed_refl.
  - cbn [rangeDevices].
    destruct (states !! k) as [state|] eqn:Hk; [|by apply IH].
    unfold bind.
    pose proof (pollDevice_settled app connected k state env w) as Hset.
    destruct (pollDevice_quiet app connected k state env w (Hall _ _ Hk))
      as [Href Hq].
    destruct (pollDevice app connected k state env w) as [state1 w1].
    cbn [fst snd] in Hset, Href, Hq.
    destruct (IH (<[k:=state1]> states) env w1) as [Hq' Hst'].
    { intros mac s. destruct (decide (k = mac)) as [->|Hne].
      - rewrite lookup_insert_eq. by intros [= <-].
      - rewrite lookup_insert_ne by done. apply Hall. }
    split; [by eapply quiet_trans|].
    intros mac. specialize (Hst' mac).
    destruct (decide (k = mac)) as [->|Hne].
    + rewrite lookup_insert_eq in Hst'. rewrite Hk.
      inversion Hst' as [? s3 Hr|]; subst. constructor.
      by eapply refreshed_trans.
    + by rewrite lookup_insert_ne in Hst'.
Qed.

Lemma pollUniFi_fetched order app env w clients :
  UniFiClient app = true →
  getActiveClients env (fetches w)
    (config.SiteID (config.UniFi (Config app))) = Ok clients →
  pollUniFi order app env w = checkDevices order app clients env (fetched w).
Proof.
  intros Hclient Hfetch. unfold pollUniFi. rewrite Hclient. cbn [negb].
  unfold bind at 1. unfold unifi_GetActiveClients.
  rewrite Hfetch. reflexivity.
Qed.

Lemma checkDevices_settled order app clients env w :
  (∀ mac, is_Some (deviceStates app !! mac) → mac ∈ order) →
  Config (fst (checkDevices order app clients env w)) = Config app ∧
  UniFiClient (fst (checkDevices order app clients env w)) = UniFiClient app ∧
  ∀ mac state,
    deviceStates (fst (checkDevices order app clients env w)) !! mac
      = Some state →
    settled (currentlyConnected clients) mac state.
Proof.
  intros Hcover. unfold checkDevices, bind.
  pose proof (rangeDevices_settled app (currentlyConnected clients) order
                (deviceStates app) env w) as Hset.
  pose proof (rangeDevices_dom app (currentlyConnected clients) order
                (deviceStates app) env w) as Hdom.
  destruct (rangeDevices app (currentlyConnected clients) order
              (deviceStates app) env w) as [states1 w1].
  cbn [fst snd ret Config UniFiClient deviceStates set_deviceStates]
    in Hset, Hdom |- *.
  split; [done|]. split; [done|].
  intros mac state Hs. apply (Hset _ _ Hs). left. apply Hcover.
  apply Hdom. eauto.
Qed.

Lemma checkDevices_quiet order app clients env w :
  (∀ mac state, deviceStates app !! mac = Some state →
                settled (currentlyConnected clients) mac state) →
  quiet w (snd (checkDevices order app clients env w)) ∧
  ∀ mac,
    option_Forall2 refreshed (deviceStates app !! mac)
      (deviceStates (fst (checkDevices order app clients env w)) !! mac).
Proof.
  intros Hall. unfold checkDevices, bind.
  destruct (rangeDevices_quiet app (currentlyConnected clients) order
              (deviceStates app) env w Hall) as [Hq Hst].
  destruct (rangeDevices app (currentlyConnected clients) order
              (deviceStates app) env w) as [states1 w1].
  cbn [fst snd ret deviceStates set_deviceStates] in Hq, Hst |- *.
  done.
Qed.

Lemma checkDevices_refresh order app clients env w :
  (∀ mac state, deviceStates app !! mac = Some state →
                settled (currentlyConnected clients) mac state) →
  checkDevices order app clients env w = refreshOnly order app clients env w.
Proof.
  intros Hall. unfold checkDevices, refreshOnly, bind.
  by rewrite (rangeDevices_refresh app (currentlyConnected clients) order
                (deviceStates app) env w Hall).
Qed.

(** C9.  After the device loop has visited every tracked device, a second
    run over the same client list, in whatever order it visits the devices
    and whenever it runs, is the loop that calls no handler: no connect,
    disconnect or roam event is raised and [checkAndOpenGate] is not run.
    So the gate is not called, and the database sees only connected
    devices persisted again: no entry of the event log, no new trigger
    time; every device state is what it was, but for the [LastSeen] of
    connected devices.  This holds for the loop however the list was
    fetched, and so for two polls whose fetch returns the same list. *)
Theorem pollUniFi_idempotent (order order' : list string) (app : App)
    (clients : list unifi.WirelessClient) (env : Env) (w w' : World) :
  (∀ mac, is_Some (deviceStates app !! mac) → mac ∈ order) →
  (checkDevices order' (fst (checkDevices order app clients env w))
       clients env w' =
     refreshOnly order' (fst (checkDevices order app clients env w))
       clients env w' ∧
   quiet w'
     (snd (checkDevices order' (fst (checkDevices order app clients env w))
             clients env w')) ∧
   ∀ mac,
     option_Forall2 refreshed
       (deviceStates (fst (checkDevices order app clients env w)) !! mac)
       (deviceStates
          (fst (checkDevices order'
                  (fst (checkDevices order app clients env w)) clients env w'))
          !! mac)) ∧
  (UniFiClient app = true →
   getActiveClients env (fetches w)
     (config.SiteID (config.UniFi (Config app))) = Ok clients →
   getActiveClients env (fetches w')
     (config.SiteID (config.UniFi (Config app))) = Ok clients →
   pollUniFi order' (fst (pollUniFi order app env w)) env w' =
     refreshOnly order' (fst (pollUniFi order app env w)) clients env
       (fetched w') ∧
   quiet w' (snd (pollUniFi order' (fst (pollUniFi order app env w)) env w')) ∧
   ∀ mac,
     option_Forall2 refreshed
       (deviceStates (fst (pollUniFi order app env w)) !! mac)
       (deviceStates
          (fst (pollUniFi order' (fst (pollUniFi order app env w)) env w'))
          !! mac)).
Proof.
  intros Hcover. split.
  - destruct (checkDevices_settled order app clients env w Hcover)
      as (_ & _ & Hall).
    split; [by apply checkDevices_refresh|].
    by apply checkDevices_quiet.
  - intros Hclient Hfetch Hfetch'.
    rewrite (pollUniFi_fetched _ _ _ _ _ Hclient Hfetch).
    destruct (checkDevices_settled order app clients env (fetched w) Hcover)
      as (Hcfg & Hcl & Hall).
    set (app1 := fst (checkDevices order app clients env (fetched w))) in *.
    rewrite (pollUniFi_fetched order' app1 env w' clients).
    + split; [by apply checkDevices_refresh|].
      destruct (checkDevices_quiet order' app1 clients env (fetched w') Hall)
        as [(Hg & Hl & calls & Hc & Hf) Hst].
      split; [|done].
      split; [done|]. split; [done|]. by exists calls.
    + congruence.
    + by rewrite Hcfg.
Qed.

Lemma pollUniFi_idempotent_witness :
  pollUniFi ["AA:BB:CC:DD:EE:01"]
      (fst (pollUniFi ["AA:BB:CC:DD:EE:01"] scenario.tracking
              (scenario.listed 10) scenario.w0))
      (scenario.listed 10)
      (snd (pollUniFi ["AA:BB:CC:DD:EE:01"] scenario.tracking
              (scenario.listed 10) scenario.w0)) =
    refreshOnly ["AA:BB:CC:DD:EE:01"]
      (fst (pollUniFi ["AA:BB:CC:DD:EE:01"] scenario.tracking
              (scenario.listed 10) scenario.w0))
      [scenario.at_gate 10] (scenario.listed 10)
      (fetched (snd (pollUniFi ["AA:BB:CC:DD:EE:01"] scenario.tracking
                       (scenario.listed 10) scenario.w0))) ∧
  quiet (snd (pollUniFi ["AA:BB:CC:DD:EE:01"] scenario.tracking
                (scenario.listed 10) scenario.w0))
    (snd (pollUniFi ["AA:BB:CC:DD:EE:01"]
            (fst (pollUniFi ["AA:BB:CC:DD:EE:01"] scenario.tracking
                    (scenario.listed 10) scenario.w0))
            (scenario.listed 10)
            (snd (pollUniFi ["AA:BB:CC:DD:EE:01"] scenario.tracking
                    (scenario.listed 10) scenario.w0)))) ∧
  ∀ mac,
    option_Forall2 refreshed
      (deviceStates (fst (pollUniFi ["AA:BB:CC:DD:EE:01"] scenario.tracking
                            (scenario.listed 10) scenario.w0)) !! mac)
      (deviceStates
         (fst (pollUniFi ["AA:BB:CC:DD:EE:01"]
                 (fst (pollUniFi ["AA:BB:CC:DD:EE:01"] scenario.tracking
                         (scenario.listed 10) scenario.w0))
                 (scenario.listed 10)
                 (snd (pollUniFi ["AA:BB:CC:DD:EE:01"] scenario.tracking
                         (scenario.listed 10) scenario.w0))))
         !! mac).
Proof.
  refine (proj2 (pollUniFi_idempotent ["AA:BB:CC:DD:EE:01"]
                   ["AA:BB:CC:DD:EE:01"] scenario.tracking
                   [scenario.at_gate 10] (scenario.listed 10) scenario.w0
                   (snd (pollUniFi ["AA:BB:CC:DD:EE:01"] scenario.tracking
                           (scenario.listed 10) scenario.w0)) _)
            eq_refl eq_refl eq_refl).
  intros mac [state Hstate].
  unfold scenario.tracking in Hstate.
  cbn [deviceStates set_deviceStates] in Hstate.
  apply lookup_singleton_Some in Hstate as [<- _]. by left.
Defined.

(** ** The invariant of the registry *)

Lemma registry_consistent_insert states mac state :
  registry_consistent states → consistent state →
  registry_consistent (<[mac:=state]> states).
Proof.
  intros Hall Hs k s. destruct (decide (mac = k)) as [->|Hne].
  - rewrite lookup_insert_eq. by intros [= <-].
  - rewrite lookup_insert_ne by done. apply Hall.
Qed.

Lemma registry_consistent_delete states mac :
  registry_consistent states → registry_consistent (delete mac states).
Proof.
  intros Hall k s Hk. apply lookup_delete_Some in Hk as [_ Hk].
  by apply (Hall k).
Qed.

Lemma newDeviceState_consistent mac name :
  consistent (newDeviceState mac name).
Proof. by split. Qed.

Lemma currentlyConnected_elem clients :
  ∀ (m : gmap string unifi.WirelessClient) mac c,
    foldl (λ m c, <[strings.ToUpper (unifi.MAC c) := c]> m) m clients !! mac
      = Some c →
    m !! mac = Some c ∨ c ∈ clients.
Proof.
  induction clients as [|c0 rest IH]; intros m mac c Hc; [by left|].
  cbn [foldl] in Hc. apply IH in Hc as [Hc|Hc].
  - destruct (decide (strings.ToUpper (unifi.MAC c0) = mac)) as [<-|Hne].
    + rewrite lookup_insert_eq in Hc. injection Hc as ->. right. by left.
    + rewrite lookup_insert_ne in Hc by done. by left.
  - right. by right.
Qed.

Lemma currentlyConnected_named clients mac c :
  Forall (λ c, unifi.AP_MAC c ≠ "") clients →
  currentlyConnected clients !! mac = Some c →
  unifi.AP_MAC c ≠ "".
Proof.
  intros Hall Hc. apply currentlyConnected_elem in Hc as [Hc|Hc].
  - by rewrite lookup_empty in Hc.
  - rewrite Forall_forall in Hall. by apply Hall.
Qed.

Lemma pollDevice_consistent app connected mac state env w :
  (∀ c, connected !! mac = Some c → unifi.AP_MAC c ≠ "") →
  consistent state →
  consistent (fst (pollDevice app connected mac state env w)).
Proof.
  intros Hnamed Hstate. unfold pollDevice.
  destruct (connected !! mac) as [client|].
  - unfold bind.
    match goal with
    | |- context [let '(_, _) := ?run in _] => destruct run as [state1 w1]
    end.
    rewrite time_Now_run, db_run. cbn.
    specialize (Hnamed client eq_refl). split; [done|discriminate].
  - destruct (IsConnected state) eqn:Hon; [|done].
    unfold bind, handleDeviceDisconnected.
    rewrite logEvent_run, db_run. cbn. by split.
Qed.

Lemma rangeDevices_consistent app connected order :
  (∀ mac c, connected !! mac = Some c → unifi.AP_MAC c ≠ "") →
  ∀ states env w,
    registry_consistent states →
    registry_consistent (fst (rangeDevices app connected order states env w)).
Proof.
  intros Hnamed.
  induction order as [|k rest IH]; intros states env w Hall; [done|].
  cbn [rangeDevices].
  destruct (states !! k) as [state|] eqn:Hk; [|by apply IH].
  unfold bind.
  pose proof (pollDevice_consistent app connected k state env w
                (Hnamed k) (Hall _ _ Hk)) as Hcons.
  destruct (pollDevice app connected k state env w) as [state1 w1].
  apply IH. by apply registry_consistent_insert.
Qed.

Lemma checkDevices_consistent order app clients env w :
  Forall (λ c, unifi.AP_MAC c ≠ "") clients →
  registry_consistent (deviceStates app) →
  registry_consistent (deviceStates (fst (checkDevices order app clients env w))).
Proof.
  intros Hnamed Hall. unfold checkDevices, bind.
  pose proof (rangeDevices_consistent app (currentlyConnected clients) order
                (λ mac c, currentlyConnected_named clients mac c Hnamed)
                (deviceStates app) env w Hall) as Hres.
  destruct (rangeDevices app (currentlyConnected clients) order
              (deviceStates app) env w) as [states1 w1].
  done.
Qed.

(** Re-authentication leaves the registry alone. *)
Lemma reauthenticate_registry app env w :
  deviceStates (fst (fst (reauthenticateWithBackoff app env w)))
    = deviceStates app.
Proof.
  destruct (Z.lt_ge_cases
              (time.Sub (clock env (clockReads w)) (lastAuthAttempt app))
              (authRetryBackoff app)) as [Hin|Hout].
  - by rewrite (reauthenticate_blocked _ _ _ Hin).
  - destruct (reauthenticate_attempt app env w ltac:(lia)) as [-> _].
    by destruct (login env (logins w)).
Qed.

Lemma pollUniFi_consistent order app env w :
  snapshots_named env →
  registry_consistent (deviceStates app) →
  registry_consistent (deviceStates (fst (pollUniFi order app env w))).
Proof.
  intros Hnamed Hall. unfold pollUniFi.
  destruct (UniFiClient app); cbn [negb]; [|done].
  unfold bind at 1. unfold unifi_GetActiveClients.
  destruct (getActiveClients env (fetches w)
              (config.SiteID (config.UniFi (Config app))))
    as [clients|err] eqn:Hfetch.
  { apply checkDevices_consistent; [by eapply Hnamed|done]. }
  destruct (isAuthError err); [|done].
  unfold bind at 1.
  match goal with
  | |- context [reauthenticateWithBackoff app env ?w1] =>
      pose proof (reauthenticate_registry app env w1) as Hreg;
      destruct (reauthenticateWithBackoff app env w1) as [[app1 err1] w2]
  end.
  cbn [fst snd] in Hreg |- *.
  destruct err1 as [e|]; [unfold ret; cbn; by rewrite Hreg|].
  unfold bind at 1. unfold unifi_GetActiveClients.
  destruct (getActiveClients env (fetches w2)
              (config.SiteID (config.UniFi (Config app))))
    as [clients|err2] eqn:Hfetch2.
  - apply checkDevices_consistent; [by eapply Hnamed|by rewrite Hreg].
  - unfold ret; cbn. by rewrite Hreg.
Qed.

Lemma loadDeviceStates_consistent view devices :
  rows_consistent view →
  ∀ states,
    registry_consistent states →
    registry_consistent (foldl (loadDevice view) states devices).
Proof.
  intros Hrows.
  induction devices as [|device rest IH]; intros states Hall; [done|].
  cbn [foldl]. apply IH. unfold loadDevice.
  destruct (config.Enabled device); cbn [negb]; [|done].
  destruct (database.GetDeviceState view (config.MAC device))
    as [[[currentAP lastSeen] isConnected]|err] eqn:Hrow; [|done].
  apply registry_consistent_insert; [done|].
  unfold consistent. cbn. by eapply Hrows.
Qed.

Lemma StartMonitoring_consistent view app :
  rows_consistent view →
  isMonitoring app = false →
  registry_consistent (deviceStates (StartMonitoring view app)).
Proof.
  intros Hrows Hoff. unfold StartMonitoring. rewrite Hoff.
  unfold loadDeviceStates. cbn [deviceStates set_deviceStates Config].
  apply loadDeviceStates_consistent; [done|].
  intros mac state. by rewrite lookup_empty.
Qed.

Lemma AddDeviceHandler_consistent body app env w :
  registry_consistent (deviceStates app) →
  registry_consistent
    (deviceStates (snd (fst (AddDeviceHandler body app env w)))).
Proof.
  intros Hall. unfold AddDeviceHandler.
  destruct body as [req|]; [|done].
  destruct (config.AddDevice (Config app) (add_MAC req) (add_Name req))
    as [cfg|err]; [|done].
  unfold bind, config_SaveConfig.
  destruct (saveConfig env (saves w)); cbn [negb]; [|done].
  cbn [isMonitoring set_Config].
  destruct (isMonitoring app); [|done].
  unfold ret. cbn [fst snd deviceStates set_deviceStates set_Config].
  apply registry_consistent_insert; [done|apply newDeviceState_consistent].
Qed.

Lemma UpdateDeviceHandler_consistent mac body app env w :
  registry_consistent (deviceStates app) →
  registry_consistent
    (deviceStates (snd (fst (UpdateDeviceHandler mac body app env w)))).
Proof.
  intros Hall. unfold UpdateDeviceHandler.
  destruct body as [req|]; [|done].
  destruct (config.UpdateDevice (Config app) mac (upd_Name req)
              (upd_Enabled req)) as [cfg|err]; [|done].
  unfold bind, config_SaveConfig.
  destruct (saveConfig env (saves w)); cbn [negb]; [|done].
  cbn [deviceStates isMonitoring set_Config].
  destruct (deviceStates app !! mac) as [state|] eqn:Hstate.
  - assert (registry_consistent
              (<[mac:=set_Name state (upd_Name req)]> (deviceStates app)))
      as Hnamed.
    { apply registry_consistent_insert; [done|].
      apply (Hall _ _ Hstate). }
    destruct (upd_Enabled req); cbn [negb]; unfold ret;
      cbn [fst snd deviceStates set_deviceStates set_Config]; [done|].
    by apply registry_consistent_delete.
  - destruct (upd_Enabled req && isMonitoring app); [|done].
    unfold ret. cbn [fst snd deviceStates set_deviceStates set_Config].
    apply registry_consistent_insert; [done|apply newDeviceState_consistent].
Qed.

Lemma DeleteDeviceHandler_consistent mac app env w :
  registry_consistent (deviceStates app) →
  registry_consistent
    (deviceStates (snd (fst (DeleteDeviceHandler mac app env w)))).
Proof.
  intros Hall. unfold DeleteDeviceHandler.
  destruct (config.RemoveDevice (Config app) mac) as [cfg|err]; [|done].
  unfold bind, config_SaveConfig.
  destruct (saveConfig env (saves w)); cbn [negb]; [|done].
  unfold ret. cbn [fst snd deviceStates set_deviceStates set_Config].
  by apply registry_consistent_delete.
Qed.

(** C8, as amended.  Provided that the rows the registry is seeded from
    have an empty access point exactly when they are marked disconnected,
    and that every client of every snapshot names its access point, every
    device state reached from a freshly seeded registry by poll cycles and
    by the add, update and remove operations has an empty [CurrentAP]
    exactly when [IsConnected] is false. *)
Theorem reachable_consistent (app : App) :
  reachable app →
  ∀ mac state,
    deviceStates app !! mac = Some state →
    (CurrentAP state = "" ↔ IsConnected state = false).
Proof.
  intros Hreach. change (registry_consistent (deviceStates app)).
  induction Hreach as [view app Hrows Hoff|order app env w _ IH Hnamed
                      |body app env w _ IH|mac body app env w _ IH
                      |mac app env w _ IH|app _ IH].
  - by apply StartMonitoring_consistent.
  - by apply pollUniFi_consistent.
  - by apply AddDeviceHandler_consistent.
  - by apply UpdateDeviceHandler_consistent.
  - by apply DeleteDeviceHandler_consistent.
  - unfold StopMonitoring. by destruct (isMonitoring app).
Qed.

Lemma reachable_consistent_witness :
  ∃ state,
    deviceStates
      (fst (pollUniFi ["AA:BB:CC:DD:EE:01"]
              (StartMonitoring scenario.empty_db scenario.home)
              (scenario.listed 10) scenario.w0))
      !! "AA:BB:CC:DD:EE:01" = Some state ∧
    (CurrentAP state = "" ↔ IsConnected state = false).
Proof.
  eexists. split; [by vm_compute|].
  refine (reachable_consistent
            (fst (pollUniFi ["AA:BB:CC:DD:EE:01"]
                    (StartMonitoring scenario.empty_db scenario.home)
                    (scenario.listed 10) scenario.w0))
            _ "AA:BB:CC:DD:EE:01" _ _).
  - apply reach_poll.
    + apply reach_start; [|reflexivity].
      intros mac currentAP lastSeen isConnected [= <- _ <-]. done.
    + intros k siteID clients [= <-]. repeat constructor. discriminate.
  - by vm_compute.
Defined.

(** A snapshot that lists the phone without an access point leaves it
    connected with an empty [CurrentAP]; the row this poll persists,
    connected with an empty access point, seeds the same state at the next
    start. *)
Lemma reachable_consistent_counterexample :
  (∃ state,
     deviceStates
       (fst (pollUniFi ["AA:BB:CC:DD:EE:01"]
               (StartMonitoring scenario.empty_db scenario.home)
               scenario.nameless scenario.w0))
       !! "AA:BB:CC:DD:EE:01" = Some state ∧
     CurrentAP state = "" ∧ IsConnected state = true) ∧
  (last (dbCalls
           (snd (pollUniFi ["AA:BB:CC:DD:EE:01"]
                   (StartMonitoring scenario.empty_db scenario.home)
                   scenario.nameless scenario.w0)))
     = Some (database.UpdateDeviceState "AA:BB:CC:DD:EE:01" "" true)) ∧
  (∃ state,
     deviceStates (StartMonitoring scenario.nameless_db scenario.home)
       !! "AA:BB:CC:DD:EE:01" = Some state ∧
     CurrentAP state = "" ∧ IsConnected state = true).
Proof.
  split; [|split].
  - eexists. split; [by vm_compute|]. by vm_compute.
  - by vm_compute.
  - eexists. split; [by vm_compute|]. by vm_compute.
Qed.

(** ** Keys of the registry *)

Lemma upper_ascii_idempotent c :
  strings.upper_ascii (strings.upper_ascii c) = strings.upper_ascii c.
Proof. destruct c as [[] [] [] [] [] [] [] []]; reflexivity. Qed.

Lemma ToUpper_idempotent s :
  strings.ToUpper (strings.ToUpper s) = strings.ToUpper s.
Proof.
  induction s as [|c s IH]; [done|].
  unfold strings.ToUpper in *. cbn. by rewrite upper_ascii_idempotent, IH.
Qed.

(** The snapshot is keyed by the normalized address of its clients. *)
Lemma currentlyConnected_key clients :
  ∀ (m : gmap string unifi.WirelessClient) mac c,
    foldl (λ m c, <[strings.ToUpper (unifi.MAC c) := c]> m) m clients !! mac
      = Some c →
    m !! mac = Some c ∨ mac = strings.ToUpper (unifi.MAC c).
Proof.
  induction clients as [|c0 rest IH]; intros m mac c Hc; [by left|].
  cbn [foldl] in Hc. apply IH in Hc as [Hc|Hc]; [|by right].
  destruct (decide (strings.ToUpper (unifi.MAC c0) = mac)) as [<-|Hne].
  - rewrite lookup_insert_eq in Hc. injection Hc as ->. by right.
  - rewrite lookup_insert_ne in Hc by done. by left.
Qed.

Lemma loadDeviceStates_normalized view devices :
  ∀ states,
    registry_normalized states →
    registry_normalized (foldl (loadDevice view) states devices).
Proof.
  induction devices as [|device rest IH]; intros states Hall; [done|].
  cbn [foldl]. apply IH. unfold loadDevice.
  destruct (config.Enabled device); cbn [negb]; [|done].
  destruct (database.GetDeviceState view (config.MAC device))
    as [[[currentAP lastSeen] isConnected]|err]; [|done].
  intros mac state.
  destruct (decide (strings.ToUpper (config.MAC device) = mac)) as [<-|Hne].
  - intros _. apply ToUpper_idempotent.
  - rewrite lookup_insert_ne by done. apply Hall.
Qed.

(** Seeding, polling and adding a device keep the keys of the registry in
    upper case, and the snapshot is looked up under upper-case keys: a
    tracked device meets its snapshot entry whatever the case either was
    typed in. *)
Lemma registry_normalized_kept :
  (∀ view app,
     isMonitoring app = false →
     registry_normalized (deviceStates (StartMonitoring view app))) ∧
  (∀ order app env w,
     registry_normalized (deviceStates app) →
     registry_normalized (deviceStates (fst (pollUniFi order app env w)))) ∧
  (∀ body app env w,
     registry_normalized (deviceStates app) →
     registry_normalized
       (deviceStates (snd (fst (AddDeviceHandler body app env w))))) ∧
  (∀ clients mac c,
     currentlyConnected clients !! mac = Some c →
     mac = strings.ToUpper (unifi.MAC c)).
Proof.
  split; [|split; [|split]].
  - intros view app Hoff. unfold StartMonitoring. rewrite Hoff.
    unfold loadDeviceStates. cbn [deviceStates set_deviceStates Config].
    apply loadDeviceStates_normalized.
    intros mac state. by rewrite lookup_empty.
  - intros order app env w Hall mac state Hstate.
    assert (is_Some (deviceStates app !! mac)) as [state0 H0];
      [|by apply (Hall _ _ H0)].
    revert Hstate. unfold pollUniFi.
    assert (∀ app' clients w',
              deviceStates app' = deviceStates app →
              deviceStates (fst (checkDevices order app' clients env w'))
                !! mac = Some state →
              is_Some (deviceStates app !! mac)) as Hcheck.
    { intros app' clients w' Hsame. unfold checkDevices, bind.
      pose proof (rangeDevices_dom app' (currentlyConnected clients) order
                    (deviceStates app') env w' mac) as Hdom.
      destruct (rangeDevices app' (currentlyConnected clients) order
                  (deviceStates app') env w') as [states1 w1].
      cbn [fst snd ret deviceStates set_deviceStates] in Hdom |- *.
      intros Hs. rewrite <- Hsame. apply Hdom. eauto. }
    destruct (UniFiClient app); cbn [negb]; [|by eauto].
    unfold bind at 1. unfold unifi_GetActiveClients.
    destruct (getActiveClients env (fetches w)
                (config.SiteID (config.UniFi (Config app))))
      as [clients|err]; [by apply Hcheck|].
    destruct (isAuthError err); [|by eauto].
    unfold bind at 1.
    match goal with
    | |- context [reauthenticateWithBackoff app env ?w1] =>
        pose proof (reauthenticate_registry app env w1) as Hreg;
        destruct (reauthenticateWithBackoff app env w1) as [[app1 err1] w2]
    end.
    cbn [fst snd] in Hreg |- *.
    destruct err1 as [e|]; [unfold ret; cbn; rewrite Hreg; by eauto|].
    unfold bind at 1. unfold unifi_GetActiveClients.
    destruct (getActiveClients env (fetches w2)
                (config.SiteID (config.UniFi (Config app))))
      as [clients|err2]; [by apply Hcheck|].
    unfold ret; cbn. rewrite Hreg. by eauto.
  - intros body app env w Hall. unfold AddDeviceHandler.
    destruct body as [req|]; [|done].
    destruct (config.AddDevice (Config app) (add_MAC req) (add_Name req))
      as [cfg|err]; [|done].
    unfold bind, config_SaveConfig.
    destruct (saveConfig env (saves w)); cbn [negb]; [|done].
    cbn [isMonitoring set_Config].
    destruct (isMonitoring app); [|done].
    unfold ret. cbn [fst snd deviceStates set_deviceStates set_Config].
    intros mac state.
    destruct (decide (strings.ToUpper (add_MAC req) = mac)) as [<-|Hne].
    + intros _. apply ToUpper_idempotent.
    + rewrite lookup_insert_ne by done. apply Hall.
  - intros clients mac c Hc.
    apply currentlyConnected_key in Hc as [Hc|Hc]; [|done].
    by rewrite lookup_empty in Hc.
Qed.

(** C7, the defect.  [loadDeviceStates] and [AddDeviceHandler] key the
    registry by the upper-cased address, [UpdateDeviceHandler] and
    [DeleteDeviceHandler] use the address of the route as it comes.  The
    phone was added (or configured) in lower case, so the configuration
    holds ["aa:bb:cc:dd:ee:01"] and the registry the key
    ["AA:BB:CC:DD:EE:01"].  Removing or disabling it under the configured
    address answers 200 and leaves it in the registry, where the poller
    keeps tracking it; removing it under the upper-case address is refused
    with 404 by the configuration; enabling it puts a second state for the
    same hardware address under the lower-case key, which no snapshot entry
    ever meets. *)
Theorem device_handlers_key_case :
  (deviceStates scenario.seeded !! "AA:BB:CC:DD:EE:01"
     = Some (newDeviceState "AA:BB:CC:DD:EE:01" "Phone") ∧
   fst (fst scenario.seeded_removed) = 200 ∧
   config.Devices (Config (snd (fst scenario.seeded_removed))) = [] ∧
   deviceStates (snd (fst scenario.seeded_removed)) !! "AA:BB:CC:DD:EE:01"
     = Some (newDeviceState "AA:BB:CC:DD:EE:01" "Phone")) ∧
  (fst (fst scenario.added) = 200 ∧
   config.Devices (Config (snd (fst scenario.added)))
     = [ {| config.MAC := "aa:bb:cc:dd:ee:01"; config.Name := "Phone";
            config.Enabled := true |} ] ∧
   deviceStates (snd (fst scenario.added)) !! "AA:BB:CC:DD:EE:01"
     = Some (newDeviceState "AA:BB:CC:DD:EE:01" "Phone") ∧
   deviceStates (snd (fst scenario.added)) !! "aa:bb:cc:dd:ee:01" = None) ∧
  (fst (fst scenario.removed) = 200 ∧
   config.Devices (Config (snd (fst scenario.removed))) = [] ∧
   deviceStates (snd (fst scenario.removed)) !! "AA:BB:CC:DD:EE:01"
     = Some (newDeviceState "AA:BB:CC:DD:EE:01" "Phone")) ∧
  (fst (fst scenario.removed_upper) = 404 ∧
   deviceStates (snd (fst scenario.removed_upper)) !! "AA:BB:CC:DD:EE:01"
     = Some (newDeviceState "AA:BB:CC:DD:EE:01" "Phone")) ∧
  (fst (fst scenario.disabled) = 200 ∧
   deviceStates (snd (fst scenario.disabled)) !! "AA:BB:CC:DD:EE:01"
     = Some (newDeviceState "AA:BB:CC:DD:EE:01" "Phone")) ∧
  (fst (fst scenario.enabled) = 200 ∧
   deviceStates (snd (fst scenario.enabled)) !! "AA:BB:CC:DD:EE:01"
     = Some (newDeviceState "AA:BB:CC:DD:EE:01" "Phone") ∧
   deviceStates (snd (fst scenario.enabled)) !! "aa:bb:cc:dd:ee:01"
     = Some (newDeviceState "aa:bb:cc:dd:ee:01" "Phone") ∧
   currentlyConnected [scenario.at_gate 10] !! "aa:bb:cc:dd:ee:01" = None).
Proof. by vm_compute. Qed.


(** * Further properties *)

(** ** The device list of the configuration *)

Lemma has_device_macs mac ds :
  config.has_device mac ds = true ↔ mac ∈ (config.MAC <$> ds).
Proof.
  unfold config.has_device. induction ds as [|d r IH]; cbn.
  - split; [discriminate|]. by intros ?%elem_of_nil.
  - rewrite orb_true_iff, IH, elem_of_cons, String.eqb_eq.
    split; (intros [?|?]; [by left|by right]).
Qed.

Lemma find_first_macs mac ds :
  config.find_first mac ds = None ↔ mac ∉ (config.MAC <$> ds).
Proof.
  induction ds as [|d r IH]; cbn.
  - split; [intros _; by intros ?%elem_of_nil|done].
  - rewrite not_elem_of_cons.
    destruct (String.eqb_spec (config.MAC d) mac) as [E|E].
    + split; [discriminate|]. intros [? _]. congruence.
    + rewrite IH. split; [by split|by intros [_ ?]].
Qed.

Lemma remove_first_absent mac ds :
  mac ∉ (config.MAC <$> ds) → config.remove_first mac ds = None.
Proof.
  induction ds as [|d r IH]; cbn; [done|].
  rewrite not_elem_of_cons. intros [Hne Hr].
  destruct (String.eqb_spec (config.MAC d) mac) as [E|E]; [congruence|].
  by rewrite IH.
Qed.

Lemma remove_first_kept mac ds ds' :
  config.remove_first mac ds = Some ds' →
  ∀ x, x ∈ (config.MAC <$> ds') → x ∈ (config.MAC <$> ds).
Proof.
  revert ds'. induction ds as [|d r IH]; intros ds'; cbn; [discriminate|].
  destruct (String.eqb (config.MAC d) mac).
  - intros [= <-] x Hx. by right.
  - destruct (config.remove_first mac r) as [r'|]; [|discriminate].
    intros [= <-] x Hx. cbn in Hx.
    apply elem_of_cons in Hx as [->|Hx]; [by left|].
    right. by apply (IH r').
Qed.

Lemma remove_first_app_new mac ds d :
  mac ∉ (config.MAC <$> ds) → config.MAC d = mac →
  config.remove_first mac (ds ++ [d]) = Some ds.
Proof.
  intros Habs Hd. induction ds as [|d0 r IH]; cbn.
  - apply String.eqb_eq in Hd. by rewrite Hd.
  - cbn in Habs. rewrite not_elem_of_cons in Habs. destruct Habs as [Hne Hr].
    destruct (String.eqb_spec (config.MAC d0) mac) as [E|E]; [congruence|].
    by rewrite IH.
Qed.

Lemma remove_first_present mac ds :
  mac ∈ (config.MAC <$> ds) →
  ∃ ds', config.remove_first mac ds = Some ds' ∧
         length ds = S (length ds') ∧
         (∀ other, other ≠ mac →
                   config.find_first other ds' = config.find_first other ds) ∧
         (NoDup (config.MAC <$> ds) →
          (mac ∉ (config.MAC <$> ds')) ∧ NoDup (config.MAC <$> ds')).
Proof.
  induction ds as [|d r IH]; cbn; [by intros ?%elem_of_nil|].
  intros Hin.
  destruct (String.eqb_spec (config.MAC d) mac) as [E|E].
  - exists r. split; [done|]. split; [done|]. split.
    + intros other Hother.
      destruct (String.eqb_spec (config.MAC d) other); [congruence|done].
    + intros Hnd. apply NoDup_cons in Hnd as [Hfresh Hnd]. by subst.
  - apply elem_of_cons in Hin as [Hin|Hin]; [congruence|].
    destruct (IH Hin) as (ds' & Hrem & Hlen & Hfind & Hnd).
    rewrite Hrem. exists (d :: ds'). cbn.
    split; [done|]. split; [by rewrite Hlen|]. split.
    + intros other Hother.
      destruct (String.eqb_spec (config.MAC d) other); [done|by apply Hfind].
    + intros Hnd0. apply NoDup_cons in Hnd0 as [Hfresh Hnd0].
      destruct (Hnd Hnd0) as [Hgone Hnd'].
      split; [rewrite not_elem_of_cons; by split|].
      apply NoDup_cons. split; [|done].
      intros Hd. apply Hfresh. by apply (remove_first_kept mac r ds').
Qed.

Lemma update_first_absent mac name enabled ds :
  mac ∉ (config.MAC <$> ds) → config.update_first mac name enabled ds = None.
Proof.
  induction ds as [|d r IH]; cbn; [done|].
  rewrite not_elem_of_cons. intros [Hne Hr].
  destruct (String.eqb_spec (config.MAC d) mac) as [E|E]; [congruence|].
  by rewrite IH.
Qed.

Lemma update_first_present mac name enabled ds :
  mac ∈ (config.MAC <$> ds) →
  ∃ ds', config.update_first mac name enabled ds = Some ds' ∧
         (config.MAC <$> ds') = (config.MAC <$> ds) ∧
         config.find_first mac ds' =
           Some {| config.MAC := mac; config.Name := name;
                   config.Enabled := enabled |} ∧
         (∀ other, other ≠ mac →
                   config.find_first other ds' = config.find_first other ds).
Proof.
  induction ds as [|d r IH]; cbn; [by intros ?%elem_of_nil|].
  intros Hin.
  destruct (String.eqb_spec (config.MAC d) mac) as [E|E].
  - eexists. split; [done|]. cbn. split; [done|].
    rewrite E, String.eqb_refl. split; [done|].
    intros other Hother.
    destruct (String.eqb_spec mac other); [congruence|].
    destruct (String.eqb_spec (config.MAC d) other); [congruence|done].
  - apply elem_of_cons in Hin as [Hin|Hin]; [congruence|].
    destruct (IH Hin) as (ds' & Hupd & Hmacs & Hfound & Hfind).
    rewrite Hupd. exists (d :: ds'). cbn.
    split; [done|]. split; [by rewrite Hmacs|].
    destruct (String.eqb_spec (config.MAC d) mac); [congruence|].
    split; [done|]. intros other Hother.
    destruct (String.eqb_spec (config.MAC d) other); [done|by apply Hfind].
Qed.

Lemma AddDevice_new c mac name :
  mac ∉ macs c →
  config.AddDevice c mac name =
    Ok (config.with_Devices c
          (config.Devices c ++
             [ {| config.MAC := mac; config.Name := name;
                  config.Enabled := true |} ])) ∧
  (NoDup (macs c) → NoDup (macs c ++ [mac])).
Proof.
  unfold config.AddDevice, macs. intros Hout.
  destruct (config.has_device mac (config.Devices c)) eqn:Hhas.
  - by apply has_device_macs in Hhas.
  - split; [done|]. intros Hnd.
    apply NoDup_app. split; [done|]. split; [|apply NoDup_singleton].
    intros x Hx ->%list_elem_of_singleton. done.
Qed.

(** X1.  [AddDevice] refuses an address that is configured already, byte
    for byte, and otherwise appends the device, enabled, at the end of the
    list; addresses that were pairwise distinct stay so. *)
Theorem AddDevice_unique (c : config.Config) (mac name : string) :
  (mac ∈ macs c → config.AddDevice c mac name = Err "device already exists") ∧
  (mac ∉ macs c →
     config.AddDevice c mac name =
       Ok (config.with_Devices c
             (config.Devices c ++
                [ {| config.MAC := mac; config.Name := name;
                     config.Enabled := true |} ])) ∧
     (NoDup (macs c) → NoDup (macs c ++ [mac]))).
Proof.
  split.
  - unfold config.AddDevice, macs. intros Hin.
    apply has_device_macs in Hin. by rewrite Hin.
  - apply AddDevice_new.
Qed.

Lemma AddDevice_unique_witness :
  config.AddDevice household.cfg household.phone_mac "Phone"
    = Err "device already exists".
Proof.
  apply (proj1 (AddDevice_unique household.cfg household.phone_mac "Phone")).
  by left.
Defined.

(** X2.  Removing a device that was just added gives back the
    configuration as it was. *)
Theorem AddDevice_RemoveDevice (c c' : config.Config) (mac name : string) :
  config.AddDevice c mac name = Ok c' →
  config.RemoveDevice c' mac = Ok c.
Proof.
  unfold config.AddDevice, config.RemoveDevice.
  destruct (config.has_device mac (config.Devices c)) eqn:Hhas;
    [discriminate|].
  intros [= <-]. cbn [config.Devices config.with_Devices].
  rewrite remove_first_app_new; [|  |done].
  - by destruct c.
  - intros Hin. apply has_device_macs in Hin. congruence.
Qed.

Lemma AddDevice_RemoveDevice_witness :
  config.RemoveDevice
      (Config (with_device scenario.logging household.phone_mac "Phone"))
      household.phone_mac
    = Ok (scenario.cfg true).
Proof.
  apply (AddDevice_RemoveDevice (scenario.cfg true) _ household.phone_mac
           "Phone").
  reflexivity.
Defined.

(** X3.  [UpdateDevice] fails exactly when the address is not configured.
    When it succeeds, the addresses and their order are what they were,
    [GetDevice] then finds the address with the new name and flag, and
    finds for every other address what it found before. *)
Theorem UpdateDevice_GetDevice (c : config.Config) (mac name : string)
    (enabled : bool) :
  (mac ∉ macs c →
     config.UpdateDevice c mac name enabled = Err "device not found") ∧
  (mac ∈ macs c →
     ∃ c', config.UpdateDevice c mac name enabled = Ok c' ∧
           macs c' = macs c ∧
           config.GetDevice c' mac =
             Some {| config.MAC := mac; config.Name := name;
                     config.Enabled := enabled |} ∧
           ∀ other, other ≠ mac →
                    config.GetDevice c' other = config.GetDevice c other).
Proof.
  unfold config.UpdateDevice, config.GetDevice, macs. split.
  - intros Hout. by rewrite update_first_absent.
  - intros Hin.
    destruct (update_first_present mac name enabled _ Hin)
      as (ds' & -> & Hmacs & Hfound & Hfind).
    eexists. split; [done|]. done.
Qed.

Lemma UpdateDevice_GetDevice_witness :
  ∃ c',
    config.UpdateDevice household.cfg household.tablet_mac "Tablet" true
      = Ok c' ∧
    macs c' = macs household.cfg ∧
    config.GetDevice c' household.tablet_mac =
      Some {| config.MAC := household.tablet_mac; config.Name := "Tablet";
              config.Enabled := true |} ∧
    ∀ other, other ≠ household.tablet_mac →
             config.GetDevice c' other = config.GetDevice household.cfg other.
Proof.
  apply (proj2 (UpdateDevice_GetDevice household.cfg household.tablet_mac
                  "Tablet" true)).
  right. by left.
Defined.

(** X4.  [RemoveDevice] fails exactly when the address is not configured.
    When it succeeds the list is one entry shorter and [GetDevice] finds
    for every other address what it found before; if the addresses were
    pairwise distinct, the address is gone and the rest is still pairwise
    distinct. *)
Theorem RemoveDevice_GetDevice (c : config.Config) (mac : string) :
  (mac ∉ macs c → config.RemoveDevice c mac = Err "device not found") ∧
  (mac ∈ macs c →
     ∃ c', config.RemoveDevice c mac = Ok c' ∧
           length (config.Devices c) = S (length (config.Devices c')) ∧
           (∀ other, other ≠ mac →
                     config.GetDevice c' other = config.GetDevice c other) ∧
           (NoDup (macs c) →
            config.GetDevice c' mac = None ∧ NoDup (macs c'))).
Proof.
  unfold config.RemoveDevice, config.GetDevice, macs. split.
  - intros Hout. by rewrite remove_first_absent.
  - intros Hin.
    destruct (remove_first_present mac _ Hin)
      as (ds' & -> & Hlen & Hfind & Hnd).
    eexists. split; [done|]. cbn. split; [done|]. split; [done|].
    intros Hnd0. destruct (Hnd Hnd0) as [Hgone Hnd'].
    split; [by apply find_first_macs|done].
Qed.

Lemma RemoveDevice_GetDevice_witness :
  config.RemoveDevice household.cfg "AA:BB:CC:DD:EE:03"
    = Err "device not found".
Proof.
  apply (proj1 (RemoveDevice_GetDevice household.cfg "AA:BB:CC:DD:EE:03")).
  apply (bool_decide_unpack _). by vm_compute.
Defined.

(** ** What one event may change *)

Lemma effects_refl n w : effects n w w.
Proof. repeat split; try lia. exists []. by rewrite app_nil_r. Qed.

Lemma effects_trans n m w1 w2 w3 :
  effects n w1 w2 → effects m w2 w3 → effects (n + m) w1 w3.
Proof.
  intros (Hg1 & Hc1 & Hl1 & Hf1 & Hs1 & c1 & Hd1)
         (Hg2 & Hc2 & Hl2 & Hf2 & Hs2 & c2 & Hd2).
  repeat split; try lia; try congruence.
  exists (c1 ++ c2). by rewrite Hd2, Hd1, app_assoc.
Qed.

Lemma effects_advance reads calls w : effects 0 w (advance reads 0 calls w).
Proof. repeat split; cbn; try lia. by exists calls. Qed.

Lemma effects_weaken n m w w' : (n ≤ m)%nat → effects n w w' → effects m w w'.
Proof.
  intros Hle (Hg & Hrest). split; [lia|done].
Qed.

Lemma checkAndOpenGate_gated app state direction :
  gated app state (checkAndOpenGate app state direction).
Proof.
  intros env w.
  destruct (Z.lt_ge_cases
              (time.Sub (clock env (clockReads w)) (LastGateTrigger state))
              (cooldownDuration app)) as [Hin|Hout].
  - rewrite (checkAndOpenGate_skip _ _ _ _ _ Hin). cbn [fst snd].
    split; [by left|]. apply (effects_weaken 0); [lia|apply effects_advance].
  - assert (¬ time.Sub (clock env (clockReads w)) (LastGateTrigger state)
                < cooldownDuration app) as Hpast by lia.
    destruct (String.eqb_spec (gate.triggerURL (GateController app)) "")
      as [E|E].
    + assert (fst (gate.OpenGate (GateController app) env (advance 1 0 [] w))
              = Some gate.NotConfigured) as Hcall
        by (by rewrite (OpenGate_unconfigured _ _ _ E)).
      rewrite (checkAndOpenGate_failure _ _ _ _ _ _ Hpast Hcall).
      rewrite (OpenGate_unconfigured _ _ _ E). cbn [fst snd].
      split; [by left|]. rewrite advance_advance.
      apply (effects_weaken 0); [lia|apply effects_advance].
    + destruct (fst (gate.OpenGate (GateController app) env
                       (advance 1 0 [] w))) as [e|] eqn:Hcall.
      * rewrite (checkAndOpenGate_failure _ _ _ _ _ _ Hpast Hcall).
        rewrite (OpenGate_request _ _ _ E). cbn [fst snd].
        split; [by left|]. rewrite !advance_advance.
        repeat split; cbn; try lia. by eexists.
      * rewrite (checkAndOpenGate_success _ _ _ _ _ Hpast Hcall).
        rewrite (OpenGate_request _ _ _ E). cbn [fst snd].
        rewrite !advance_advance.
        split; [right; by repeat split|].
        repeat split; cbn; try lia. by eexists.
Qed.

Lemma ret_gated app state : gated app state (ret state).
Proof. intros env w. split; [by left|apply effects_refl]. Qed.

Lemma logged_gated app state entry m :
  gated app state m → gated app state (logEvent app entry ;;; m).
Proof.
  intros Hm env w. unfold bind. rewrite logEvent_run.
  destruct (Hm env (advance 0 0 (activity app entry) w)) as [Hst Heff].
  cbn [clockReads httpGets advance] in Hst. cbn [Nat.add] in Hst.
  split; [done|].
  change 1%nat with (0 + 1)%nat.
  eapply effects_trans; [apply (effects_advance 0)|done].
Qed.

Lemma handleDeviceConnected_gated app state toAP fromAP :
  gated app state (handleDeviceConnected app state toAP fromAP).
Proof.
  unfold handleDeviceConnected. apply logged_gated.
  destruct (String.eqb toAP (gateAP app));
    [apply checkAndOpenGate_gated|apply ret_gated].
Qed.

Lemma handleDeviceRoamed_gated app state fromAP toAP :
  gated app state (handleDeviceRoamed app state fromAP toAP).
Proof.
  unfold handleDeviceRoamed. apply logged_gated.
  destruct (String.eqb toAP (gateAP app) || String.eqb fromAP (gateAP app));
    [apply checkAndOpenGate_gated|apply ret_gated].
Qed.

(** One turn of the poll loop on one device. *)
Lemma pollDevice_cases app connected mac state env w :
  MAC (fst (pollDevice app connected mac state env w)) = MAC state ∧
  Name (fst (pollDevice app connected mac state env w)) = Name state ∧
  (PreviousAP (fst (pollDevice app connected mac state env w))
     = PreviousAP state ∨
   (connected !! mac = None ∧ IsConnected state = true ∧
    PreviousAP (fst (pollDevice app connected mac state env w))
      = CurrentAP state)) ∧
  (LastGateTrigger (fst (pollDevice app connected mac state env w))
     = LastGateTrigger state ∨
   (LastGateTrigger (fst (pollDevice app connected mac state env w))
      = clock env (S (clockReads w)) ∧
    ¬ time.Sub (clock env (clockReads w)) (LastGateTrigger state)
        < cooldownDuration app ∧
    httpGets (snd (pollDevice app connected mac state env w))
      = S (httpGets w))) ∧
  effects 1 w (snd (pollDevice app connected mac state env w)).
Proof.
  unfold pollDevice.
  destruct (connected !! mac) as [client|].
  - unfold bind.
    match goal with
    | |- context [let '(_, _) := ?run env w in _] =>
        assert (gated app state run) as Hgated;
        [|destruct (Hgated env w) as [Hstate Heff];
          destruct (run env w) as [state1 w1]]
    end.
    { repeat case_match;
        auto using handleDeviceConnected_gated, handleDeviceRoamed_gated,
          ret_gated. }
    rewrite time_Now_run, db_run. cbn [fst snd] in *.
    assert (effects 1 w
              (advance 0 0
                 [database.UpdateDeviceState mac (unifi.AP_MAC client) true]
                 (advance 1 0 [] w1))) as Heff'.
    { rewrite advance_advance. change 1%nat with (1 + 0)%nat at 1.
      eapply effects_trans; [done|apply effects_advance]. }
    destruct Hstate as [->|(-> & Hpast & Hget)].
    + split; [done|]. split; [done|]. split; [by left|].
      split; [by left|done].
    + split; [done|]. split; [done|]. split; [by left|].
      split; [|done]. right. split; [done|]. split; [done|].
      cbn. lia.
  - destruct (IsConnected state) eqn:Hon.
    + unfold bind, handleDeviceDisconnected. rewrite logEvent_run, db_run.
      cbn [fst snd]. rewrite advance_advance.
      split; [done|]. split; [done|]. split; [by right|].
      split; [by left|].
      apply (effects_weaken 0); [lia|apply effects_advance].
    + split; [done|]. split; [done|]. split; [by left|].
      split; [by left|apply effects_refl].
Qed.

(** ** What one poll may change *)

Lemma rangeDevices_effects app connected order :
  ∀ states env w,
    effects (length order) w
      (snd (rangeDevices app connected order states env w)).
Proof.
  induction order as [|k rest IH]; intros states env w;
    [apply effects_refl|].
  cbn [rangeDevices length].
  destruct (states !! k) as [state|].
  - unfold bind.
    destruct (pollDevice_cases app connected k state env w)
      as (_ & _ & _ & _ & Heff).
    destruct (pollDevice app connected k state env w) as [state1 w1].
    change (S (length rest)) with (1 + length rest)%nat.
    eapply effects_trans; [done|apply IH].
  - eapply effects_weaken; [|apply IH]. lia.
Qed.

(** A relation between the state of a device before and after its turn,
    if it is a preorder, relates the registry before and after the loop. *)
Lemma rangeDevices_each app connected env
    (R : DeviceState → DeviceState → Prop) :
  (∀ s, R s s) → (∀ a b c, R a b → R b c → R a c) →
  (∀ mac s w, R s (fst (pollDevice app connected mac s env w))) →
  ∀ order states w mac,
    option_Forall2 R (states !! mac)
      (fst (rangeDevices app connected order states env w) !! mac).
Proof.
  intros Hrefl Htrans Hstep.
  induction order as [|k rest IH]; intros states w mac.
  - cbn. destruct (states !! mac); by constructor.
  - cbn [rangeDevices].
    destruct (states !! k) as [state|] eqn:Hk; [|apply IH].
    unfold bind. pose proof (Hstep k state w) as Hone.
    destruct (pollDevice app connected k state env w) as [state1 w1].
    specialize (IH (<[k:=state1]> states) w1 mac).
    destruct (decide (k = mac)) as [->|Hne].
    + rewrite lookup_insert_eq in IH. rewrite Hk.
      inversion IH as [? s2 Hr|]; subst. constructor. by eapply Htrans.
    + by rewrite lookup_insert_ne in IH.
Qed.

(** How a poll ends: either it never reaches the device loop, and then the
    registry is what it was, or it runs the loop once, over the list the
    controller gave, on a session that differs at most in the state of the
    authentication retries. *)
Lemma asked_fetched w : asked w (fetched w).
Proof. repeat split; cbn; lia. Qed.

Lemma reauthenticate_asked app env w :
  same_setup app (fst (fst (reauthenticateWithBackoff app env w))) ∧
  (logins w ≤ logins (snd (reauthenticateWithBackoff app env w))
     ≤ 1 + logins w)%nat ∧
  (clockReads w ≤ clockReads (snd (reauthenticateWithBackoff app env w)))%nat ∧
  fetches (snd (reauthenticateWithBackoff app env w)) = fetches w ∧
  httpGets (snd (reauthenticateWithBackoff app env w)) = httpGets w ∧
  saves (snd (reauthenticateWithBackoff app env w)) = saves w ∧
  dbCalls (snd (reauthenticateWithBackoff app env w)) = dbCalls w.
Proof.
  destruct (Z.lt_ge_cases
              (time.Sub (clock env (clockReads w)) (lastAuthAttempt app))
              (authRetryBackoff app)) as [Hin|Hout].
  - rewrite (reauthenticate_blocked _ _ _ Hin). cbn.
    rewrite app_nil_r. repeat split; lia.
  - unfold reauthenticateWithBackoff, bind.
    rewrite time_Since_run.
    destruct (Z.ltb_spec (time.Sub (clock env (clockReads w))
                            (lastAuthAttempt app)) (authRetryBackoff app));
      [lia|].
    rewrite time_Now_run, unifi_Login_run.
    destruct (login env _); cbn; rewrite !app_nil_r; repeat split; lia.
Qed.

Lemma pollUniFi_shape order app env w :
  (same_setup app (fst (pollUniFi order app env w)) ∧
   asked w (snd (pollUniFi order app env w))) ∨
  (∃ app1 w1 clients,
     pollUniFi order app env w = checkDevices order app1 clients env w1 ∧
     same_setup app app1 ∧ asked w w1 ∧ (fetches w < fetches w1)%nat).
Proof.
  remember (pollUniFi order app env w) as run eqn:Hrun.
  unfold pollUniFi in Hrun.
  destruct (UniFiClient app); cbn [negb] in Hrun.
  2:{ left. subst run. split; [by repeat split|]. repeat split; cbn; lia. }
  unfold bind at 1 in Hrun. unfold unifi_GetActiveClients in Hrun.
  cbv beta iota in Hrun. fold (fetched w) in Hrun.
  destruct (getActiveClients env (fetches w)
              (config.SiteID (config.UniFi (Config app))))
    as [clients|err].
  { right. exists app, (fetched w), clients.
    split; [done|]. split; [by repeat split|].
    split; [apply asked_fetched|cbn; lia]. }
  destruct (isAuthError err).
  2:{ left. subst run. split; [by repeat split|]. apply asked_fetched. }
  unfold bind at 1 in Hrun.
  destruct (reauthenticate_asked app env (fetched w))
    as (Hsame & Hl & Hc & Hf & Hg & Hs & Hd).
  destruct (reauthenticateWithBackoff app env (fetched w))
    as [[app1 err1] w2].
  cbn [fst snd] in *. cbn in Hl, Hc, Hf, Hg, Hs, Hd.
  destruct err1 as [e|].
  { left. subst run. split; [done|]. repeat split; cbn; lia || congruence. }
  unfold bind at 1 in Hrun. unfold unifi_GetActiveClients in Hrun.
  cbv beta iota in Hrun. fold (fetched w2) in Hrun.
  destruct (getActiveClients env (fetches w2)
              (config.SiteID (config.UniFi (Config app))))
    as [clients|err2].
  - right. exists app1, (fetched w2), clients.
    split; [done|]. split; [done|].
    split; [|cbn; lia]. repeat split; cbn; lia || congruence.
  - left. subst run. split; [done|]. repeat split; cbn; lia || congruence.
Qed.

Lemma checkDevices_each order app clients env w
    (R : DeviceState → DeviceState → Prop) :
  (∀ s, R s s) → (∀ a b c, R a b → R b c → R a c) →
  (∀ mac s w, R s (fst (pollDevice app (currentlyConnected clients) mac s
                          env w))) →
  ∀ mac,
    option_Forall2 R (deviceStates app !! mac)
      (deviceStates (fst (checkDevices order app clients env w)) !! mac).
Proof.
  intros Hrefl Htrans Hstep mac. unfold checkDevices, bind.
  pose proof (rangeDevices_each app (currentlyConnected clients) env R
                Hrefl Htrans Hstep order (deviceStates app) w mac) as Hall.
  destruct (rangeDevices app (currentlyConnected clients) order
              (deviceStates app) env w) as [states1 w1].
  done.
Qed.

Lemma checkDevices_setup order app clients env w :
  Config (fst (checkDevices order app clients env w)) = Config app ∧
  UniFiClient (fst (checkDevices order app clients env w)) = UniFiClient app ∧
  GateController (fst (checkDevices order app clients env w))
    = GateController app ∧
  isMonitoring (fst (checkDevices order app clients env w))
    = isMonitoring app ∧
  effects (length order) w (snd (checkDevices order app clients env w)).
Proof.
  unfold checkDevices, bind.
  pose proof (rangeDevices_effects app (currentlyConnected clients) order
                (deviceStates app) env w) as Heff.
  destruct (rangeDevices app (currentlyConnected clients) order
              (deviceStates app) env w) as [states1 w1].
  done.
Qed.

(** A preorder on device states that every turn of the loop respects
    relates the registry before and after a poll, whatever way the poll
    takes. *)
Lemma pollUniFi_each order app env w
    (R : DeviceState → DeviceState → Prop) :
  (∀ s, R s s) → (∀ a b c, R a b → R b c → R a c) →
  (∀ app1 connected mac s w,
     Config app1 = Config app → GateController app1 = GateController app →
     R s (fst (pollDevice app1 connected mac s env w))) →
  ∀ mac,
    option_Forall2 R (deviceStates app !! mac)
      (deviceStates (fst (pollUniFi order app env w)) !! mac).
Proof.
  intros Hrefl Htrans Hstep mac.
  destruct (pollUniFi_shape order app env w)
    as [[(_ & _ & _ & _ & Hreg) _]
       |(app1 & w1 & clients & -> & (Hcfg & _ & Hctl & _ & Hreg) & _)].
  - rewrite Hreg. destruct (deviceStates app !! mac); by constructor.
  - rewrite <- Hreg.
    apply checkDevices_each; [done|done|].
    intros k s w2. by apply Hstep.
Qed.

(** X5.  One poll asks the controller for the client list at most twice
    and logs in at most once; it asks the gate at most once for each
    device it visits and never writes the configuration file.  It changes
    neither the configuration nor the monitoring flag, and the registry
    has the keys it had: a poll neither adds nor drops a tracked device. *)
Theorem pollUniFi_bounds (order : list string) (app : App) (env : Env)
    (w : World) :
  (fetches (snd (pollUniFi order app env w)) ≤ 2 + fetches w)%nat ∧
  (logins (snd (pollUniFi order app env w)) ≤ 1 + logins w)%nat ∧
  (httpGets (snd (pollUniFi order app env w))
     ≤ length order + httpGets w)%nat ∧
  saves (snd (pollUniFi order app env w)) = saves w ∧
  Config (fst (pollUniFi order app env w)) = Config app ∧
  isMonitoring (fst (pollUniFi order app env w)) = isMonitoring app ∧
  ∀ mac,
    is_Some (deviceStates (fst (pollUniFi order app env w)) !! mac) ↔
    is_Some (deviceStates app !! mac).
Proof.
  assert (∀ mac,
            is_Some (deviceStates (fst (pollUniFi order app env w)) !! mac) ↔
            is_Some (deviceStates app !! mac)) as Hkeys.
  { intros mac.
    pose proof (pollUniFi_each order app env w (λ _ _, True)
                  (λ _, I) (λ _ _ _ _ _, I) (λ _ _ _ _ _ _ _, I) mac) as Hrel.
    inversion Hrel; split; intros [? ?]; eauto; congruence. }
  destruct (pollUniFi_shape order app env w)
    as [[(Hcfg & _ & _ & Hmon & _) (Hf & Hl & _ & Hg & Hs & _)]
       |(app1 & w1 & clients & Hrun & (Hcfg & _ & _ & Hmon & _)
         & (Hf & Hl & _ & Hg & Hs & _) & _)].
  - repeat split; try lia; try done; by apply Hkeys.
  - rewrite Hrun in Hkeys |- *.
    destruct (checkDevices_setup order app1 clients env w1)
      as (Hcfg' & _ & _ & Hmon' & (Hg' & _ & Hl' & Hf' & Hs' & _)).
    repeat split; try lia; try congruence; by apply Hkeys.
Qed.

(** X6.  One turn of the poll loop never changes the address or the name
    of a device.  [PreviousAP] is written only when the device has left
    the network, and then holds the access point it was on; a roam does
    not record the access point left.  [LastGateTrigger] changes only
    together with a request to the gate, and there is at most one such
    request in the turn; the controller and the configuration file are
    not touched. *)
Theorem pollDevice_frame (app : App)
    (connected : gmap string unifi.WirelessClient) (mac : string)
    (state : DeviceState) (env : Env) (w : World) :
  MAC (fst (pollDevice app connected mac state env w)) = MAC state ∧
  Name (fst (pollDevice app connected mac state env w)) = Name state ∧
  (PreviousAP (fst (pollDevice app connected mac state env w))
     = PreviousAP state ∨
   (connected !! mac = None ∧ IsConnected state = true ∧
    PreviousAP (fst (pollDevice app connected mac state env w))
      = CurrentAP state)) ∧
  (LastGateTrigger (fst (pollDevice app connected mac state env w))
     = LastGateTrigger state ∨
   httpGets (snd (pollDevice app connected mac state env w))
     = S (httpGets w)) ∧
  (httpGets (snd (pollDevice app connected mac state env w))
     ≤ S (httpGets w))%nat ∧
  logins (snd (pollDevice app connected mac state env w)) = logins w ∧
  fetches (snd (pollDevice app connected mac state env w)) = fetches w ∧
  saves (snd (pollDevice app connected mac state env w)) = saves w.
Proof.
  destruct (pollDevice_cases app connected mac state env w)
    as (Hmac & Hname & Hprev & Htrig & (Hg & _ & Hl & Hf & Hs & _)).
  split; [done|]. split; [done|]. split; [done|].
  split; [destruct Htrig as [?|(_ & _ & ?)]; [by left|by right]|].
  repeat split; try done. lia.
Qed.

(** X7.  With a cooldown that is not negative and a clock that does not
    run backwards, the [LastGateTrigger] of a tracked device never
    decreases over a poll. *)
Theorem pollUniFi_LastGateTrigger_monotone (order : list string) (app : App)
    (env : Env) (w : World) (mac : string) (state state' : DeviceState) :
  0 ≤ cooldownDuration app →
  (∀ n, clock env n ≤ clock env (S n)) →
  deviceStates app !! mac = Some state →
  deviceStates (fst (pollUniFi order app env w)) !! mac = Some state' →
  LastGateTrigger state ≤ LastGateTrigger state'.
Proof.
  intros Hcool Hclock Hbefore Hafter.
  pose proof (pollUniFi_each order app env w
                (λ s s', LastGateTrigger s ≤ LastGateTrigger s')) as Hall.
  cbv beta in Hall.
  specialize (Hall ltac:(intros; lia) ltac:(intros; lia)).
  assert (∀ app1 connected k s w1,
            Config app1 = Config app →
            GateController app1 = GateController app →
            LastGateTrigger s
              ≤ LastGateTrigger (fst (pollDevice app1 connected k s env w1)))
    as Hstep.
  { intros app1 connected k s w1 Hcfg _.
    destruct (pollDevice_cases app1 connected k s env w1)
      as (_ & _ & _ & [-> | (-> & Hpast & _)] & _); [lia|].
    assert (cooldownDuration app1 = cooldownDuration app) as Hcd
      by (unfold cooldownDuration; by rewrite Hcfg).
    rewrite Hcd in Hpast. specialize (Hclock (clockReads w1)).
    revert Hpast.
    unfold time.Sub, time.minDuration, time.maxDuration.
    repeat case_match; lia. }
  specialize (Hall Hstep mac). rewrite Hbefore, Hafter in Hall.
  by inversion Hall.
Qed.

Lemma pollUniFi_LastGateTrigger_monotone_witness :
  ∃ state',
    deviceStates (fst (pollUniFi [household.phone_mac] scenario.tracking
                         (scenario.listed 10) scenario.w0))
      !! household.phone_mac = Some state' ∧
    LastGateTrigger scenario.phone ≤ LastGateTrigger state'.
Proof.
  eexists. split; [by vm_compute|].
  refine (pollUniFi_LastGateTrigger_monotone [household.phone_mac]
            scenario.tracking (scenario.listed 10) scenario.w0
            household.phone_mac scenario.phone _ _ _ _ _).
  - by vm_compute.
  - intros n. unfold scenario.listed, scenario.env, time.Second.
    cbn [clock]. lia.
  - by vm_compute.
  - by vm_compute.
Defined.

Lemma currentlyConnected_from clients :
  ∀ (m : gmap string unifi.WirelessClient) key,
    foldl (λ m c, <[strings.ToUpper (unifi.MAC c) := c]> m) m clients !! key =
    match last (filter (λ c, strings.ToUpper (unifi.MAC c) = key) clients) with
    | Some c => Some c
    | None => m !! key
    end.
Proof.
  induction clients as [|c rest IH]; intros m key; [done|].
  cbn [foldl]. rewrite IH, filter_cons.
  destruct (decide (strings.ToUpper (unifi.MAC c) = key)) as [<-|Hne].
  - rewrite last_cons, lookup_insert_eq.
    by destruct (last (filter _ rest)).
  - by rewrite lookup_insert_ne.
Qed.

(** X8.  After the device loop has visited every tracked device, each
    device tracked under an upper-case address agrees with the client
    list, whether or not an event was raised for it: when the list names
    its address, in whatever letter case, the device is connected on the
    access point that the last such entry gives; when the list does not
    name it, the device is disconnected. *)
Theorem checkDevices_agrees (order : list string) (app : App)
    (clients : list unifi.WirelessClient) (env : Env) (w : World)
    (mac : string) (state : DeviceState) :
  (∀ k, is_Some (deviceStates app !! k) → k ∈ order) →
  strings.ToUpper mac = mac →
  deviceStates (fst (checkDevices order app clients env w)) !! mac
    = Some state →
  match last (filter (λ c, strings.ToUpper (unifi.MAC c)
                             = strings.ToUpper mac) clients) with
  | Some client =>
      IsConnected state = true ∧ CurrentAP state = unifi.AP_MAC client
  | None => IsConnected state = false
  end.
Proof.
  intros Hcover Hupper Hstate.
  destruct (checkDevices_settled order app clients env w Hcover)
    as (_ & _ & Hall).
  specialize (Hall mac state Hstate). unfold settled in Hall.
  unfold currentlyConnected in Hall.
  rewrite currentlyConnected_from, lookup_empty in Hall.
  rewrite Hupper.
  by destruct (last (filter _ clients)).
Qed.

Lemma checkDevices_agrees_witness :
  ∃ state,
    deviceStates (fst (checkDevices [household.phone_mac] scenario.tracking
                         [scenario.at_gate 10] (scenario.listed 10)
                         scenario.w0))
      !! household.phone_mac = Some state ∧
    IsConnected state = true ∧ CurrentAP state = "GATE-MAC".
Proof.
  eexists. split; [by vm_compute|].
  refine (checkDevices_agrees [household.phone_mac] scenario.tracking
            [scenario.at_gate 10] (scenario.listed 10) scenario.w0
            household.phone_mac _ _ _ _).
  - intros k [state Hstate]. unfold scenario.tracking in Hstate.
    cbn [deviceStates set_deviceStates] in Hstate.
    apply lookup_singleton_Some in Hstate as [<- _]. by left.
  - by vm_compute.
  - by vm_compute.
Defined.

Lemma currentlyConnected_unlisted clients mac :
  (∀ c, c ∈ clients →
        strings.ToUpper (unifi.MAC c) ≠ strings.ToUpper mac) →
  currentlyConnected clients !! mac = None.
Proof.
  intros Hnone.
  destruct (currentlyConnected clients !! mac) as [c|] eqn:Hc; [|done].
  unfold currentlyConnected in Hc.
  destruct (currentlyConnected_elem _ _ _ _ Hc) as [Hc'|Hin];
    [by rewrite lookup_empty in Hc'|].
  destruct (currentlyConnected_key _ _ _ _ Hc) as [Hc' | ->];
    [by rewrite lookup_empty in Hc'|].
  destruct (Hnone c Hin). by rewrite ToUpper_idempotent.
Qed.

(** X9.  A tracked device that was connected and whose address the client
    list does not name, in whatever letter case, is marked disconnected:
    [PreviousAP] takes the access point it was on, [CurrentAP] is emptied,
    [IsConnected] is false, and the address, the name, [LastSeen] and
    [LastGateTrigger] stay.  A [disconnected] entry that names the access
    point left is recorded when activity logging is on, and the state is
    written to the database; the gate is not asked and the clock is not
    read: a disconnection alone never opens the gate. *)
Theorem pollDevice_disconnects (app : App)
    (clients : list unifi.WirelessClient) (mac : string)
    (state : DeviceState) (env : Env) (w : World) :
  (∀ c, c ∈ clients →
        strings.ToUpper (unifi.MAC c) ≠ strings.ToUpper mac) →
  IsConnected state = true →
  pollDevice app (currentlyConnected clients) mac state env w =
    ({| MAC := MAC state; Name := Name state; CurrentAP := "";
        PreviousAP := CurrentAP state; LastSeen := LastSeen state;
        IsConnected := false; LastGateTrigger := LastGateTrigger state |},
     {| clockReads := clockReads w; httpGets := httpGets w;
        logins := logins w; fetches := fetches w; saves := saves w;
        dbCalls :=
          dbCalls w ++
          (if config.LogActivity (config.Gate (Config app)) then
             [database.LogEvent
                {| database.DeviceMAC := MAC state;
                   database.DeviceName := Name state;
                   database.Event := "disconnected";
                   database.Direction := "";
                   database.FromAP := CurrentAP state;
                   database.ToAP := "";
                   database.GateOpened := false;
                   database.Message := "Device disconnected from network" |}]
           else []) ++
          [database.UpdateDeviceState mac "" false] |}).
Proof.
  intros Hmissing Hon. unfold pollDevice.
  rewrite (currentlyConnected_unlisted _ _ Hmissing), Hon.
  unfold bind, handleDeviceDisconnected.
  rewrite logEvent_run, db_run. unfold ret. by rewrite advance_advance.
Qed.

Lemma pollDevice_disconnects_witness :
  pollDevice scenario.logging (currentlyConnected [])
      "AA:BB:CC:DD:EE:01" scenario.indoors scenario.working scenario.w0 =
    ({| MAC := "AA:BB:CC:DD:EE:01"; Name := "Phone"; CurrentAP := "";
        PreviousAP := "HOUSE-MAC"; LastSeen := 0; IsConnected := false;
        LastGateTrigger := time.zero |},
     {| clockReads := 0; httpGets := 0; logins := 0; fetches := 0;
        saves := 0;
        dbCalls :=
          [database.LogEvent
             {| database.DeviceMAC := "AA:BB:CC:DD:EE:01";
                database.DeviceName := "Phone";
                database.Event := "disconnected";
                database.Direction := "";
                database.FromAP := "HOUSE-MAC";
                database.ToAP := "";
                database.GateOpened := false;
                database.Message := "Device disconnected from network" |};
           database.UpdateDeviceState "AA:BB:CC:DD:EE:01" "" false] |}).
Proof.
  etrans.
  - apply (pollDevice_disconnects scenario.logging [] "AA:BB:CC:DD:EE:01"
             scenario.indoors scenario.working scenario.w0).
    + intros c Hc. by apply elem_of_nil in Hc.
    + reflexivity.
  - by vm_compute.
Defined.

(** X10.  A device that is tracked under the upper-case form of its
    address, was disconnected, and has one entry in the client list, on an
    access point other than the gate AP, is connected there whatever its
    uptime: a [connected] entry with direction [unknown] is recorded when
    activity logging is on, the gate is not asked, and the state is marked
    connected on that access point, stamped with the reading of the clock
    and written to the database; the address, the name, [PreviousAP] and
    [LastGateTrigger] stay. *)
Theorem pollDevice_connects_elsewhere (app : App)
    (clients : list unifi.WirelessClient) (mac : string)
    (state : DeviceState) (client : unifi.WirelessClient) (env : Env)
    (w : World) :
  strings.ToUpper mac = mac →
  IsConnected state = false →
  client ∈ clients →
  strings.ToUpper (unifi.MAC client) = strings.ToUpper mac →
  (∀ c, c ∈ clients →
        strings.ToUpper (unifi.MAC c) = strings.ToUpper mac → c = client) →
  unifi.AP_MAC client ≠ config.GateAPMAC (config.UniFi (Config app)) →
  pollDevice app (currentlyConnected clients) mac state env w =
    ({| MAC := MAC state; Name := Name state;
        CurrentAP := unifi.AP_MAC client; PreviousAP := PreviousAP state;
        LastSeen := clock env (clockReads w); IsConnected := true;
        LastGateTrigger := LastGateTrigger state |},
     {| clockReads := S (clockReads w); httpGets := httpGets w;
        logins := logins w; fetches := fetches w; saves := saves w;
        dbCalls :=
          dbCalls w ++
          (if config.LogActivity (config.Gate (Config app)) then
             [database.LogEvent
                {| database.DeviceMAC := MAC state;
                   database.DeviceName := Name state;
                   database.Event := "connected";
                   database.Direction := "unknown";
                   database.FromAP := "nowhere";
                   database.ToAP := unifi.AP_MAC client;
                   database.GateOpened := false;
                   database.Message := "Device connected to network" |}]
           else []) ++
          [database.UpdateDeviceState mac (unifi.AP_MAC client) true] |}).
Proof.
  intros Hupper Hoff Hin Hkey Hone Hother. rewrite Hupper in Hkey, Hone.
  unfold pollDevice.
  rewrite (currentlyConnected_listed clients client mac Hin Hkey Hone), Hoff.
  fold (gateAP app) in Hother |- *. cbn [negb].
  apply String.eqb_neq in Hother. rewrite Hother. cbn [andb negb].
  unfold bind.
  rewrite handleDeviceConnected_elsewhere by (by apply String.eqb_neq).
  rewrite time_Now_run, db_run. unfold ret.
  by rewrite !advance_advance.
Qed.

Lemma pollDevice_connects_elsewhere_witness :
  pollDevice scenario.logging (currentlyConnected [household.house])
      "AA:BB:CC:DD:EE:01" scenario.phone scenario.working scenario.w0 =
    ({| MAC := "AA:BB:CC:DD:EE:01"; Name := "Phone";
        CurrentAP := "HOUSE-MAC"; PreviousAP := ""; LastSeen := 0;
        IsConnected := true; LastGateTrigger := time.zero |},
     {| clockReads := 1; httpGets := 0; logins := 0; fetches := 0;
        saves := 0;
        dbCalls :=
          [database.LogEvent
             {| database.DeviceMAC := "AA:BB:CC:DD:EE:01";
                database.DeviceName := "Phone";
                database.Event := "connected";
                database.Direction := "unknown";
                database.FromAP := "nowhere";
                database.ToAP := "HOUSE-MAC";
                database.GateOpened := false;
                database.Message := "Device connected to network" |};
           database.UpdateDeviceState "AA:BB:CC:DD:EE:01" "HOUSE-MAC" true]
     |}).
Proof.
  etrans.
  - apply (pollDevice_connects_elsewhere scenario.logging [household.house]
             "AA:BB:CC:DD:EE:01" scenario.phone household.house
             scenario.working scenario.w0).
    + by vm_compute.
    + reflexivity.
    + by left.
    + by vm_compute.
    + intros c Hc _. by apply list_elem_of_singleton in Hc.
    + by vm_compute.
  - by vm_compute.
Defined.

(** ** Addresses and error texts *)

(** X11.  The snapshot is looked up by upper-cased address: under a key it
    holds the last client of the list whose address, upper-cased, is the
    key, and nothing when there is none.  So the letter case of the
    controller's addresses does not matter, and of two entries for one
    address the later one counts. *)
Theorem currentlyConnected_lookup (clients : list unifi.WirelessClient)
    (key : string) :
  currentlyConnected clients !! key =
    last (filter (λ c, strings.ToUpper (unifi.MAC c) = key) clients).
Proof.
  unfold currentlyConnected. rewrite currentlyConnected_from, lookup_empty.
  by destruct (last _).
Qed.

Lemma prefix_app m b : String.prefix m (m +:+ b) = true.
Proof.
  induction m as [|c m IH]; simpl.
  - by destruct b.
  - destruct (Ascii.ascii_dec c c); [done|congruence].
Qed.

Lemma prefix_inv m s : String.prefix m s = true → ∃ b, s = m +:+ b.
Proof.
  revert s. induction m as [|c m IH]; intros s.
  - intros _. by exists s.
  - destruct s as [|c' s]; simpl; [discriminate|].
    destruct (Ascii.ascii_dec c c') as [<-|]; [|discriminate].
    intros [b ->]%IH. by exists b.
Qed.

(** [Contains] is the test for a substring. *)
Lemma Contains_infix s m :
  strings.Contains s m = true ↔ ∃ a b, s = a +:+ m +:+ b.
Proof.
  split.
  - induction s as [|c s IH]; cbn [strings.Contains].
    + rewrite orb_false_r. intros [b Hb]%prefix_inv. by exists "", b.
    + intros [[b Hb]%prefix_inv|Hrest]%orb_true_iff.
      * by exists "", b.
      * destruct (IH Hrest) as (a & b & ->). by exists (String c a), b.
  - intros (a & b & ->). induction a as [|c a IH].
    + change ("" +:+ m +:+ b) with (m +:+ b).
      destruct (m +:+ b) eqn:E; cbn [strings.Contains];
        rewrite <- E, prefix_app; done.
    + change (String c a +:+ m +:+ b) with (String c (a +:+ m +:+ b)).
      cbn [strings.Contains]. by rewrite IH, orb_true_r.
Qed.

(** X12.  [isAuthError] holds exactly for the error texts that contain,
    once brought to lower case, one of the five markers: an error that
    names none of them is never answered with a login. *)
Theorem isAuthError_markers (err : string) :
  isAuthError err = true ↔
  ∃ marker a b, marker ∈ authMarkers ∧
                strings.ToLower err = a +:+ marker +:+ b.
Proof.
  unfold isAuthError, authMarkers.
  rewrite !orb_true_iff, !Contains_infix. split.
  - intros [[[[(a & b & H)|(a & b & H)]|(a & b & H)]|(a & b & H)]
           |(a & b & H)];
      eexists _, a, b; (split; [|exact H]); set_solver.
  - intros (marker & a & b & Hin & H).
    repeat (apply elem_of_cons in Hin as [->|Hin]);
      [| | | | | by apply elem_of_nil in Hin]; eauto 10.
Qed.

Lemma isAuthError_markers_witness :
  isAuthError "unexpected status code: 401" = true.
Proof.
  apply (proj2 (isAuthError_markers "unexpected status code: 401")).
  exists "401", "unexpected status code: ", "". split; [|reflexivity].
  by left.
Defined.

(** ** The poll when the fetch fails *)

(** X13.  Without a controller client the poll does nothing at all.  When
    the fetch fails with an error that is not an authentication error, the
    poll ends there: the session is what it was, nobody logs in, the gate
    and the database are not touched. *)
Theorem pollUniFi_skips (order : list string) (app : App) (env : Env)
    (w : World) :
  (UniFiClient app = false → pollUniFi order app env w = (app, w)) ∧
  (UniFiClient app = true →
   ∀ err,
     getActiveClients env (fetches w)
       (config.SiteID (config.UniFi (Config app))) = Err err →
     isAuthError err = false →
     pollUniFi order app env w = (app, contacted 0 0 1 w)).
Proof.
  unfold pollUniFi. split.
  - by intros ->.
  - intros -> err Hfetch Hother. cbn [negb].
    unfold bind at 1. unfold unifi_GetActiveClients.
    by rewrite Hfetch, Hother.
Qed.

Lemma pollUniFi_skips_witness :
  pollUniFi [household.phone_mac] scenario.tracking household.unreachable
      scenario.w0
    = (scenario.tracking, contacted 0 0 1 scenario.w0).
Proof.
  apply (proj2 (pollUniFi_skips [household.phone_mac] scenario.tracking
                  household.unreachable scenario.w0)
           eq_refl "dial tcp: connection refused").
  - reflexivity.
  - by vm_compute.
Defined.

(** X14.  When the fetch fails with an authentication error the poll
    re-authenticates.  Inside the backoff window it ends without a login.
    When the login fails it ends with the retry state advanced and the
    registry untouched.  When the login succeeds the retry state is reset
    and the list is fetched once more: if that fails too, for whatever
    reason, the poll ends without a second login; if it succeeds, the
    device loop runs over that list. *)
Theorem pollUniFi_reauthenticates (order : list string) (app : App)
    (env : Env) (w : World) (err : string) :
  UniFiClient app = true →
  getActiveClients env (fetches w)
    (config.SiteID (config.UniFi (Config app))) = Err err →
  isAuthError err = true →
  (time.Sub (clock env (clockReads w)) (lastAuthAttempt app)
     < authRetryBackoff app →
   pollUniFi order app env w = (app, contacted 2 0 1 w)) ∧
  (¬ time.Sub (clock env (clockReads w)) (lastAuthAttempt app)
       < authRetryBackoff app →
   (∀ e, login env (logins w) = Some e →
      pollUniFi order app env w =
        (set_auth app (wrap64 (authRetryCount app + 1))
           (clock env (S (clockReads w)))
           (nextBackoff (wrap64 (authRetryCount app + 1))),
         contacted 2 1 1 w)) ∧
   (login env (logins w) = None →
      (∀ err',
         getActiveClients env (S (fetches w))
           (config.SiteID (config.UniFi (Config app))) = Err err' →
         pollUniFi order app env w =
           (set_auth app 0 (clock env (S (clockReads w))) 0,
            contacted 2 1 2 w)) ∧
      (∀ clients,
         getActiveClients env (S (fetches w))
           (config.SiteID (config.UniFi (Config app))) = Ok clients →
         pollUniFi order app env w =
           checkDevices order
             (set_auth app 0 (clock env (S (clockReads w))) 0) clients env
             (contacted 2 1 2 w)))).
Proof.
  intros Hclient Hfetch Hauth.
  assert (pollUniFi order app env w =
          (reauth <- reauthenticateWithBackoff app ;;
           match snd reauth with
           | Some _ => ret (fst reauth)
           | None =>
               r <- unifi_GetActiveClients
                      (config.SiteID (config.UniFi (Config app))) ;;
               match r with
               | Ok clients => checkDevices order (fst reauth) clients
               | Err _ => ret (fst reauth)
               end
           end) env (contacted 0 0 1 w)) as ->.
  { unfold pollUniFi. rewrite Hclient. cbn [negb]. unfold bind at 1.
    unfold unifi_GetActiveClients. by rewrite Hfetch, Hauth. }
  unfold bind at 1.
  unfold reauthenticateWithBackoff, bind, time_Since, time_Now, bind, ret,
    unifi_Login, unifi_GetActiveClients, contacted.
  cbn [clockReads logins fetches httpGets saves dbCalls Nat.add].
  destruct (Z.ltb_spec (time.Sub (clock env (clockReads w))
                          (lastAuthAttempt app)) (authRetryBackoff app))
    as [Hin|Hout].
  - split; [done|]. intros Hout. lia.
  - split; [lia|]. intros _.
    cbn [clockReads logins fetches httpGets saves dbCalls Nat.add].
    split.
    + by intros e ->.
    + intros ->. cbn [fst snd fetches Config set_auth]. split.
      * by intros err' ->.
      * by intros clients ->.
Qed.

Lemma pollUniFi_reauthenticates_witness :
  pollUniFi [household.phone_mac] scenario.tracking household.expired
      scenario.w0
    = checkDevices [household.phone_mac]
        (set_auth scenario.tracking 0 (clock household.expired 1) 0)
        [scenario.at_gate 10] household.expired
        (contacted 2 1 2 scenario.w0).
Proof.
  refine (proj2 (proj2 (proj2 (pollUniFi_reauthenticates
                                 [household.phone_mac] scenario.tracking
                                 household.expired scenario.w0
                                 "unexpected status code: 401" _ _ _) _) _)
            [scenario.at_gate 10] _).
  - reflexivity.
  - reflexivity.
  - by vm_compute.
  - by vm_compute.
  - reflexivity.
  - reflexivity.
Defined.

(** ** The registry over a session *)

Lemma registry_keyed_insert states mac state :
  registry_keyed states → MAC state = mac →
  registry_keyed (<[mac:=state]> states).
Proof.
  intros Hall Hs k s. destruct (decide (mac = k)) as [->|Hne].
  - rewrite lookup_insert_eq. by intros [= <-].
  - rewrite lookup_insert_ne by done. apply Hall.
Qed.

Lemma registry_keyed_delete states mac :
  registry_keyed states → registry_keyed (delete mac states).
Proof.
  intros Hall k s Hk. apply lookup_delete_Some in Hk as [_ Hk].
  by apply (Hall k).
Qed.

Lemma loadDeviceStates_keyed view devices :
  ∀ states,
    registry_keyed states →
    registry_keyed (foldl (loadDevice view) states devices).
Proof.
  induction devices as [|device rest IH]; intros states Hall; [done|].
  cbn [foldl]. apply IH. unfold loadDevice.
  destruct (config.Enabled device); cbn [negb]; [|done].
  destruct (database.GetDeviceState view (config.MAC device))
    as [[[currentAP lastSeen] isConnected]|err]; [|done].
  by apply registry_keyed_insert.
Qed.

(** X15.  In every session, whatever the database and the controller
    answer and whatever the dashboard asks, each state of the registry is
    filed under its own address: the [MAC] field of a device state is the
    key it is stored under, so the trigger time persisted for a device is
    persisted under its registry key. *)
Theorem session_keyed (app : App) :
  session app →
  ∀ mac state, deviceStates app !! mac = Some state → MAC state = mac.
Proof.
  intros Hsession. change (registry_keyed (deviceStates app)).
  induction Hsession as [view app Hoff|order app env w _ IH
                        |body app env w _ IH|mac body app env w _ IH
                        |mac app env w _ IH|app _ IH].
  - unfold StartMonitoring. rewrite Hoff. unfold loadDeviceStates.
    cbn [deviceStates set_deviceStates Config].
    apply loadDeviceStates_keyed. intros mac state. by rewrite lookup_empty.
  - intros mac state' Hafter.
    pose proof (pollUniFi_each order app env w
                  (λ s s', MAC s' = MAC s)
                  (λ _, eq_refl)
                  (λ a b c Hab Hbc, eq_trans Hbc Hab)) as Hall.
    cbv beta in Hall.
    specialize (Hall (λ app1 connected k s w1 _ _,
                        proj1 (pollDevice_cases app1 connected k s env w1))
                     mac).
    rewrite Hafter in Hall. inversion Hall as [state ? Hmac Hbefore|].
    rewrite Hmac. by apply IH.
  - unfold AddDeviceHandler.
    destruct body as [req|]; [|done].
    destruct (config.AddDevice (Config app) (add_MAC req) (add_Name req))
      as [cfg|err]; [|done].
    unfold bind, config_SaveConfig.
    destruct (saveConfig env (saves w)); cbn [negb]; [|done].
    cbn [isMonitoring set_Config].
    destruct (isMonitoring app); [|done].
    unfold ret. cbn [fst snd deviceStates set_deviceStates set_Config].
    by apply registry_keyed_insert.
  - unfold UpdateDeviceHandler.
    destruct body as [req|]; [|done].
    destruct (config.UpdateDevice (Config app) mac (upd_Name req)
                (upd_Enabled req)) as [cfg|err]; [|done].
    unfold bind, config_SaveConfig.
    destruct (saveConfig env (saves w)); cbn [negb]; [|done].
    cbn [deviceStates isMonitoring set_Config].
    destruct (deviceStates app !! mac) as [state|] eqn:Hstate.
    + assert (registry_keyed
                (<[mac:=set_Name state (upd_Name req)]> (deviceStates app)))
        as Hnamed.
      { apply registry_keyed_insert; [done|]. by apply (IH _ _ Hstate). }
      destruct (upd_Enabled req); cbn [negb]; unfold ret;
        cbn [fst snd deviceStates set_deviceStates set_Config]; [done|].
      by apply registry_keyed_delete.
    + destruct (upd_Enabled req && isMonitoring app); [|done].
      unfold ret. cbn [fst snd deviceStates set_deviceStates set_Config].
      by apply registry_keyed_insert.
  - unfold DeleteDeviceHandler.
    destruct (config.RemoveDevice (Config app) mac) as [cfg|err]; [|done].
    unfold bind, config_SaveConfig.
    destruct (saveConfig env (saves w)); cbn [negb]; [|done].
    unfold ret. cbn [fst snd deviceStates set_deviceStates set_Config].
    by apply registry_keyed_delete.
  - unfold StopMonitoring. by destruct (isMonitoring app).
Qed.

Lemma session_keyed_witness :
  ∃ state,
    deviceStates
      (fst (pollUniFi [household.phone_mac]
              (StartMonitoring scenario.empty_db scenario.home)
              (scenario.listed 10) scenario.w0))
      !! household.phone_mac = Some state ∧
    MAC state = household.phone_mac.
Proof.
  eexists. split; [by vm_compute|].
  refine (session_keyed
            (fst (pollUniFi [household.phone_mac]
                    (StartMonitoring scenario.empty_db scenario.home)
                    (scenario.listed 10) scenario.w0))
            _ household.phone_mac _ _).
  - apply session_poll. apply session_start. reflexivity.
  - by vm_compute.
Defined.

(** ** The device operations of the dashboard *)

Lemma find_first_app_new mac ds d :
  mac ∉ (config.MAC <$> ds) → config.MAC d = mac →
  config.find_first mac (ds ++ [d]) = Some d.
Proof.
  intros Habs Hd. induction ds as [|d0 r IH]; cbn.
  - apply String.eqb_eq in Hd. by rewrite Hd.
  - cbn in Habs. rewrite not_elem_of_cons in Habs. destruct Habs as [Hne Hr].
    destruct (String.eqb_spec (config.MAC d0) mac) as [E|E]; [congruence|].
    by apply IH.
Qed.

Lemma AddDeviceHandler_new req app env w :
  add_MAC req ∉ macs (Config app) →
  AddDeviceHandler (Some req) app env w =
    (if saveConfig env (saves w) then
       (http.StatusOK,
        if isMonitoring app then
          set_deviceStates (with_device app (add_MAC req) (add_Name req))
            (<[strings.ToUpper (add_MAC req) :=
                 newDeviceState (strings.ToUpper (add_MAC req))
                   (add_Name req)]> (deviceStates app))
        else with_device app (add_MAC req) (add_Name req))
     else
       (http.StatusInternalServerError,
        with_device app (add_MAC req) (add_Name req)),
     stored w).
Proof.
  intros Hnew.
  destruct (AddDevice_new (Config app) (add_MAC req) (add_Name req) Hnew)
    as [Hadd _].
  unfold AddDeviceHandler. rewrite Hadd.
  unfold bind, config_SaveConfig, with_device, stored.
  destruct (saveConfig env (saves w)); cbn [negb]; [|done].
  cbn [isMonitoring set_Config]. by destruct (isMonitoring app).
Qed.

Lemma DeleteDeviceHandler_present mac app env w ds :
  config.remove_first mac (config.Devices (Config app)) = Some ds →
  DeleteDeviceHandler mac app env w =
    (if saveConfig env (saves w) then
       (http.StatusOK,
        set_deviceStates
          (set_Config app (config.with_Devices (Config app) ds))
          (delete mac (deviceStates app)))
     else
       (http.StatusInternalServerError,
        set_Config app (config.with_Devices (Config app) ds)),
     stored w).
Proof.
  intros Hrem. unfold DeleteDeviceHandler, config.RemoveDevice.
  rewrite Hrem. unfold bind, config_SaveConfig, stored.
  by destruct (saveConfig env (saves w)).
Qed.

(** X16.  A failed save is not rolled back.  When the configuration file
    cannot be written, [AddDeviceHandler] answers 500 and the registry is
    what it was, but the configuration in memory lists the device; asking
    again for the same address is then refused with 400, without another
    attempt to save and without the device ever entering the registry. *)
Theorem AddDeviceHandler_unsaved (req : AddDeviceRequest) (app : App)
    (env : Env) (w : World) :
  add_MAC req ∉ macs (Config app) →
  saveConfig env (saves w) = false →
  fst (fst (AddDeviceHandler (Some req) app env w))
    = http.StatusInternalServerError ∧
  deviceStates (snd (fst (AddDeviceHandler (Some req) app env w)))
    = deviceStates app ∧
  config.GetDevice (Config (snd (fst (AddDeviceHandler (Some req) app env w))))
    (add_MAC req)
    = Some {| config.MAC := add_MAC req; config.Name := add_Name req;
              config.Enabled := true |} ∧
  ∀ name env' w',
    AddDeviceHandler (Some {| add_MAC := add_MAC req; add_Name := name |})
      (snd (fst (AddDeviceHandler (Some req) app env w))) env' w'
    = (http.StatusBadRequest,
       snd (fst (AddDeviceHandler (Some req) app env w)), w').
Proof.
  intros Hnew Hsave. rewrite (AddDeviceHandler_new _ _ _ _ Hnew), Hsave.
  cbn [fst snd]. unfold with_device at 1 2 3.
  cbn [deviceStates set_Config Config].
  split; [done|]. split; [done|]. split.
  - unfold config.GetDevice. cbn [config.Devices config.with_Devices].
    by apply find_first_app_new.
  - intros name env' w'. unfold AddDeviceHandler, with_device.
    cbn [add_MAC add_Name Config set_Config].
    unfold config.AddDevice. cbn [config.Devices config.with_Devices].
    assert (config.has_device (add_MAC req)
              (config.Devices (Config app) ++
                 [ {| config.MAC := add_MAC req; config.Name := add_Name req;
                      config.Enabled := true |} ]) = true) as ->; [|done].
    apply has_device_macs. rewrite fmap_app. apply elem_of_app. right.
    by left.
Qed.

Lemma AddDeviceHandler_unsaved_witness :
  fst (fst (AddDeviceHandler
              (Some {| add_MAC := household.phone_mac; add_Name := "Phone" |})
              scenario.logging household.unsaved scenario.w0))
    = http.StatusInternalServerError ∧
  deviceStates
    (snd (fst (AddDeviceHandler
                 (Some {| add_MAC := household.phone_mac;
                          add_Name := "Phone" |})
                 scenario.logging household.unsaved scenario.w0)))
    = deviceStates scenario.logging.
Proof.
  pose proof (AddDeviceHandler_unsaved
                {| add_MAC := household.phone_mac; add_Name := "Phone" |}
                scenario.logging household.unsaved scenario.w0) as Hrun.
  split; apply Hrun; try reflexivity;
    apply (bool_decide_unpack _); by vm_compute.
Defined.

(** X17.  Adding a device and deleting it again, both saved, gives back
    the session as it was, monitoring or not, when the address is in upper
    case and was neither configured nor tracked. *)
Theorem AddDeviceHandler_DeleteDeviceHandler (req : AddDeviceRequest)
    (app : App) (env : Env) (w : World) (env' : Env) (w' : World) :
  add_MAC req ∉ macs (Config app) →
  deviceStates app !! add_MAC req = None →
  strings.ToUpper (add_MAC req) = add_MAC req →
  saveConfig env (saves w) = true →
  saveConfig env' (saves w') = true →
  fst (DeleteDeviceHandler (add_MAC req)
         (snd (fst (AddDeviceHandler (Some req) app env w))) env' w')
    = (http.StatusOK, app).
Proof.
  intros Hnew Hfree Hupper Hsave Hsave'.
  rewrite (AddDeviceHandler_new _ _ _ _ Hnew), Hsave, Hupper.
  cbn [fst snd].
  assert (∀ states,
    fst (DeleteDeviceHandler (add_MAC req)
           (set_deviceStates (with_device app (add_MAC req) (add_Name req))
              states) env' w')
    = (http.StatusOK,
       set_deviceStates app (delete (add_MAC req) states))) as Hdelete.
  { intros states.
    rewrite (DeleteDeviceHandler_present _ _ _ _
               (config.Devices (Config app))), Hsave'.
    - cbn [fst]. f_equal. unfold with_device.
      destruct app as [[] ? ? ? ? ? ? ?]. reflexivity.
    - unfold with_device.
      cbn [Config set_Config set_deviceStates config.Devices
           config.with_Devices].
      by apply remove_first_app_new. }
  destruct (isMonitoring app).
  - rewrite Hdelete, delete_insert_id by done. by destruct app.
  - replace (with_device app (add_MAC req) (add_Name req))
      with (set_deviceStates (with_device app (add_MAC req) (add_Name req))
              (deviceStates app)) by by destruct app.
    rewrite Hdelete, delete_id by done. by destruct app.
Qed.

Lemma AddDeviceHandler_DeleteDeviceHandler_witness :
  fst (DeleteDeviceHandler household.phone_mac
         (snd (fst (AddDeviceHandler
                      (Some {| add_MAC := household.phone_mac;
                               add_Name := "Phone" |})
                      scenario.logging scenario.working scenario.w0)))
         scenario.working scenario.w0)
    = (http.StatusOK, scenario.logging).
Proof.
  apply (AddDeviceHandler_DeleteDeviceHandler
           {| add_MAC := household.phone_mac; add_Name := "Phone" |}
           scenario.logging scenario.working scenario.w0 scenario.working
           scenario.w0).
  - apply (bool_decide_unpack _). by vm_compute.
  - by vm_compute.
  - by vm_compute.
  - reflexivity.
  - reflexivity.
Defined.

(** X18.  Deleting a tracked device and adding it again, both saved,
    forgets what the session knew of it: when the configured addresses are
    pairwise distinct and the address is in upper case, the device is
    afterwards tracked as new, not connected and never triggered. *)
Theorem DeleteDeviceHandler_AddDeviceHandler (mac name : string) (app : App)
    (env : Env) (w : World) (env' : Env) (w' : World) :
  NoDup (macs (Config app)) →
  mac ∈ macs (Config app) →
  isMonitoring app = true →
  strings.ToUpper mac = mac →
  saveConfig env (saves w) = true →
  saveConfig env' (saves w') = true →
  fst (fst (AddDeviceHandler (Some {| add_MAC := mac; add_Name := name |})
              (snd (fst (DeleteDeviceHandler mac app env w))) env' w'))
    = http.StatusOK ∧
  deviceStates
    (snd (fst (AddDeviceHandler (Some {| add_MAC := mac; add_Name := name |})
                 (snd (fst (DeleteDeviceHandler mac app env w))) env' w')))
    !! mac
    = Some (newDeviceState mac name).
Proof.
  intros Hnd Hin Hmon Hupper Hsave Hsave'.
  destruct (remove_first_present mac _ Hin) as (ds & Hrem & _ & _ & Hgone).
  destruct (Hgone Hnd) as [Hout _].
  rewrite (DeleteDeviceHandler_present _ _ _ _ _ Hrem), Hsave.
  cbn [fst snd]. rewrite AddDeviceHandler_new by done.
  cbn [saves stored add_MAC add_Name isMonitoring set_deviceStates
       set_Config].
  rewrite Hsave', Hmon, Hupper. cbn [fst snd deviceStates set_deviceStates].
  split; [done|]. by rewrite lookup_insert_eq.
Qed.

Lemma DeleteDeviceHandler_AddDeviceHandler_witness :
  deviceStates
    (snd (fst (AddDeviceHandler
                 (Some {| add_MAC := household.phone_mac;
                          add_Name := "Phone" |})
                 (snd (fst (DeleteDeviceHandler household.phone_mac
                              household.app scenario.working scenario.w0)))
                 scenario.working scenario.w0)))
    !! household.phone_mac
    = Some (newDeviceState household.phone_mac "Phone").
Proof.
  apply (DeleteDeviceHandler_AddDeviceHandler household.phone_mac "Phone"
           household.app scenario.working scenario.w0 scenario.working
           scenario.w0).
  - apply (bool_decide_unpack _). by vm_compute.
  - by left.
  - reflexivity.
  - by vm_compute.
  - reflexivity.
  - reflexivity.
Defined.

(** X19.  [UpdateDeviceHandler] answers 404 for an address that is not
    configured and changes nothing.  For a configured address in upper
    case, when the update is saved, the registry changes under the
    upper-cased address only, the key under which the monitoring tracks
    the device: a tracked device that stays enabled keeps every field of
    its state, the last trigger time included, but for the name, which is
    the new one; a disabled device is not tracked; a device that was not
    tracked is tracked as new, disconnected and never triggered, when it
    is enabled while the monitoring runs. *)
Theorem UpdateDeviceHandler_registry (mac : string)
    (req : UpdateDeviceRequest) (app : App) (env : Env) (w : World) :
  (mac ∉ macs (Config app) →
   UpdateDeviceHandler mac (Some req) app env w = (404, app, w)) ∧
  (mac ∈ macs (Config app) →
   strings.ToUpper mac = mac →
   saveConfig env (saves w) = true →
   fst (fst (UpdateDeviceHandler mac (Some req) app env w)) = 200 ∧
   deviceStates (snd (fst (UpdateDeviceHandler mac (Some req) app env w)))
     !! strings.ToUpper mac
     = (if upd_Enabled req then
          match deviceStates app !! strings.ToUpper mac with
          | Some state =>
              Some {| MAC := MAC state; Name := upd_Name req;
                      CurrentAP := CurrentAP state;
                      PreviousAP := PreviousAP state;
                      LastSeen := LastSeen state;
                      IsConnected := IsConnected state;
                      LastGateTrigger := LastGateTrigger state |}
          | None =>
              if isMonitoring app
              then Some {| MAC := strings.ToUpper mac; Name := upd_Name req;
                           CurrentAP := ""; PreviousAP := "";
                           LastSeen := time.zero; IsConnected := false;
                           LastGateTrigger := time.zero |}
              else None
          end
        else None) ∧
   ∀ other,
     other ≠ strings.ToUpper mac →
     deviceStates (snd (fst (UpdateDeviceHandler mac (Some req) app env w)))
       !! other
       = deviceStates app !! other).
Proof.
  unfold UpdateDeviceHandler, config.UpdateDevice. split.
  - intros Hout. by rewrite update_first_absent.
  - intros Hin Hupper Hsave. rewrite Hupper.
    destruct (update_first_present mac (upd_Name req) (upd_Enabled req) _ Hin)
      as (ds & -> & _).
    unfold bind, config_SaveConfig. rewrite Hsave.
    cbn [negb deviceStates isMonitoring set_Config].
    destruct (deviceStates app !! mac) as [state|] eqn:Hstate;
      destruct (upd_Enabled req); cbn [negb andb];
      try destruct (isMonitoring app); unfold ret;
      cbn [fst snd deviceStates set_deviceStates set_Config];
      (split; [done|]); (split; [|intros other Hother]);
      rewrite ?lookup_delete_eq, ?lookup_insert_eq, ?lookup_delete_ne,
        ?lookup_insert_ne by done; done.
Qed.

Lemma UpdateDeviceHandler_registry_witness :
  deviceStates
    (snd (fst (UpdateDeviceHandler "AA:BB:CC:DD:EE:01"
                 (Some {| upd_Name := "Handy"; upd_Enabled := true |})
                 household.app scenario.working scenario.w0)))
    !! "AA:BB:CC:DD:EE:01"
    = Some {| MAC := "AA:BB:CC:DD:EE:01"; Name := "Handy";
              CurrentAP := "HOUSE-MAC"; PreviousAP := ""; LastSeen := 0;
              IsConnected := true; LastGateTrigger := time.zero |}.
Proof.
  refine (proj1 (proj2 (proj2 (UpdateDeviceHandler_registry
                                 "AA:BB:CC:DD:EE:01"
                                 {| upd_Name := "Handy";
                                    upd_Enabled := true |}
                                 household.app scenario.working scenario.w0)
                         _ _ _))).
  - by left.
  - by vm_compute.
  - reflexivity.
Defined.

(** ** Seeding the registry *)

Lemma loadDevice_seed view states device :
  loadDevice view states device =
    match seed view device with
    | Some state => <[MAC state := state]> states
    | None => states
    end.
Proof.
  unfold loadDevice, seed. destruct (config.Enabled device); cbn [negb];
    [|done].
  by destruct (database.GetDeviceState view (config.MAC device))
    as [[[currentAP lastSeen] isConnected]|err].
Qed.

Lemma loadDeviceStates_from view devices :
  ∀ (states : gmap string DeviceState) key,
    foldl (loadDevice view) states devices !! key =
    match last (filter (λ state, MAC state = key) (omap (seed view) devices))
    with
    | Some state => Some state
    | None => states !! key
    end.
Proof.
  induction devices as [|device rest IH]; intros states key; [done|].
  cbn [foldl]. rewrite IH, loadDevice_seed.
  change (omap (seed view) (device :: rest))
    with (match seed view device with
          | Some state => state :: omap (seed view) rest
          | None => omap (seed view) rest
          end).
  destruct (seed view device) as [state|]; [|done].
  rewrite filter_cons.
  destruct (decide (MAC state = key)) as [<-|Hne].
  - rewrite last_cons, lookup_insert_eq.
    by destruct (last (filter _ _)).
  - by rewrite lookup_insert_ne.
Qed.

(** X20.  Starting the monitoring seeds the registry from the configured
    list and the database alone.  Under a key it holds the state seeded
    for the last configured device that is enabled, that the database
    knows under the address as configured, and whose address, upper-cased,
    is the key; it holds nothing under any other key.  What the session
    tracked before the start does not count. *)
Theorem StartMonitoring_registry (view : database.View) (app : App)
    (key : string) :
  isMonitoring app = false →
  deviceStates (StartMonitoring view app) !! key =
    last (filter (λ state, MAC state = key)
            (omap (seed view) (config.Devices (Config app)))).
Proof.
  intros Hoff. unfold StartMonitoring, loadDeviceStates. rewrite Hoff.
  cbn [deviceStates set_deviceStates Config].
  rewrite loadDeviceStates_from, lookup_empty.
  by destruct (last _).
Qed.

Lemma StartMonitoring_registry_witness :
  deviceStates (StartMonitoring scenario.empty_db scenario.home)
    !! household.phone_mac =
    last (filter (λ state, MAC state = household.phone_mac)
            (omap (seed scenario.empty_db)
               (config.Devices (Config scenario.home)))).
Proof.
  apply (StartMonitoring_registry scenario.empty_db scenario.home
           household.phone_mac).
  reflexivity.
Defined.

(** X21.  Stopping and starting again rebuilds the registry: two sessions
    with the same configured devices have the same registry after a
    restart against the same database, whatever they tracked before, and
    the session is monitoring again with a gate controller for the
    configured URL. *)
Theorem restart_registry (view : database.View) (app app' : App) :
  config.Devices (Config app) = config.Devices (Config app') →
  deviceStates (StartMonitoring view (StopMonitoring app))
    = deviceStates (StartMonitoring view (StopMonitoring app')) ∧
  isMonitoring (StartMonitoring view (StopMonitoring app)) = true ∧
  GateController (StartMonitoring view (StopMonitoring app))
    = gate.NewController (config.TriggerURL (config.Shelly (Config app))).
Proof.
  intros Hsame. unfold StartMonitoring, StopMonitoring, loadDeviceStates.
  destruct (isMonitoring app) eqn:Hmon, (isMonitoring app') eqn:Hmon';
    cbn [isMonitoring deviceStates set_deviceStates Config GateController];
    rewrite ?Hmon, ?Hmon';
    cbn [isMonitoring deviceStates set_deviceStates Config GateController];
    by rewrite Hsame.
Qed.

Lemma restart_registry_witness :
  deviceStates (StartMonitoring scenario.empty_db
                  (StopMonitoring household.app))
    = deviceStates (StartMonitoring scenario.empty_db
                      (StopMonitoring
                         (set_Config scenario.logging household.cfg))).
Proof.
  apply (restart_registry scenario.empty_db household.app
           (set_Config scenario.logging household.cfg)).
  reflexivity.
Defined.

(** ** The first trigger and the login after a success *)

(** X22.  A device that never triggered the gate is not held back by the
    cooldown, whatever [open_duration] is: with a trigger URL configured
    and a clock later than the year 293, its event sends one request to
    the gate, and when the answer is 200 the device is stamped with the
    next reading of the clock. *)
Theorem checkAndOpenGate_first_trigger (app : App) (state : DeviceState)
    (direction : string) (env : Env) (w : World) :
  LastGateTrigger state = time.zero →
  - 52900000000 * time.Second ≤ clock env (clockReads w) →
  gate.triggerURL (GateController app) ≠ "" →
  httpGets (snd (checkAndOpenGate app state direction env w))
    = S (httpGets w) ∧
  (httpGet env (httpGets w) (gate.triggerURL (GateController app))
     = Status 200 →
   LastGateTrigger (fst (checkAndOpenGate app state direction env w))
     = clock env (S (clockReads w))).
Proof.
  intros Hnever Hclock Hurl.
  pose proof (never_triggered_no_cooldown app _ Hclock) as Hpast.
  rewrite <- Hnever in Hpast.
  pose proof (OpenGate_request (GateController app) env (advance 1 0 [] w)
                Hurl) as Hopen.
  cbn [httpGets advance Nat.add] in Hopen.
  destruct (fst (gate.OpenGate (GateController app) env (advance 1 0 [] w)))
    as [e|] eqn:Hres.
  - rewrite (checkAndOpenGate_failure _ _ _ _ _ e Hpast Hres), Hopen.
    cbn [fst snd httpGets advance Nat.add]. split; [done|].
    intros Hok. rewrite Hopen, Hok in Hres. discriminate.
  - rewrite (checkAndOpenGate_success _ _ _ _ _ Hpast Hres), Hopen.
    cbn [fst snd httpGets advance Nat.add LastGateTrigger
         set_LastGateTrigger]. done.
Qed.

Lemma checkAndOpenGate_first_trigger_witness :
  httpGets (snd (checkAndOpenGate scenario.logging scenario.phone "arriving"
                   scenario.working scenario.w0)) = 1%nat ∧
  LastGateTrigger (fst (checkAndOpenGate scenario.logging scenario.phone
                          "arriving" scenario.working scenario.w0))
    = clock scenario.working 1.
Proof.
  destruct (checkAndOpenGate_first_trigger scenario.logging scenario.phone
              "arriving" scenario.working scenario.w0) as [Hasked Hstamp].
  - reflexivity.
  - by vm_compute.
  - by vm_compute.
  - split; [exact Hasked|]. apply Hstamp. reflexivity.
Defined.

(** X23.  A successful login clears the backoff: the next call, at a time
    not before that login, attempts the login again at once, however many
    attempts had failed before. *)
Theorem reauthenticate_after_success (app : App) (env : Env) (w : World)
    (env' : Env) (w' : World) :
  ¬ time.Sub (clock env (clockReads w)) (lastAuthAttempt app)
      < authRetryBackoff app →
  login env (logins w) = None →
  clock env (S (clockReads w)) ≤ clock env' (clockReads w') →
  logins (snd (reauthenticateWithBackoff
                 (fst (fst (reauthenticateWithBackoff app env w))) env' w'))
    = S (logins w').
Proof.
  intros Hout Hlogin Hlater.
  destruct (reauthenticate_attempt app env w Hout) as [-> _].
  rewrite Hlogin. cbn [fst].
  destruct (reauthenticate_attempt
              (set_auth app 0 (clock env (S (clockReads w))) 0) env' w')
    as [_ ->]; [|done].
  cbn [lastAuthAttempt authRetryBackoff set_auth].
  unfold time.Sub, time.minDuration, time.maxDuration.
  repeat case_match; lia.
Qed.

Lemma reauthenticate_after_success_witness :
  logins (snd (reauthenticateWithBackoff
                 (fst (fst (reauthenticateWithBackoff scenario.backing_off
                              household.patient household.later)))
                 household.patient
                 (snd (reauthenticateWithBackoff scenario.backing_off
                         household.patient household.later))))
    = 2%nat.
Proof.
  apply (reauthenticate_after_success scenario.backing_off household.patient
           household.later household.patient
           (snd (reauthenticateWithBackoff scenario.backing_off
                   household.patient household.later))).
  - by vm_compute.
  - reflexivity.
  - by vm_compute.
Defined.

(** ** The activity-logging flag *)

Lemma unlogged_app a b : unlogged (a ++ b) = unlogged a ++ unlogged b.
Proof. apply List.filter_app. Qed.

Lemma agree_ret {A B} (R : A → B → Prop) a b :
  R a b → agree R (ret a) (ret b).
Proof. by intros HR env w w' Hw. Qed.

Lemma agree_bind {A B A' B'} (R : A → B → Prop) (S : A' → B' → Prop)
    (m : M A) (m' : M B) (k : A → M A') (k' : B → M B') :
  agree R m m' →
  (∀ a b, R a b → agree S (k a) (k' b)) →
  agree S (x <- m ;; k x) (x <- m' ;; k' x).
Proof.
  intros Hm Hk env w w' Hw. unfold bind.
  destruct (Hm env w w' Hw) as [HR Hw1].
  destruct (m env w) as [a w1], (m' env w') as [b w1'].
  by apply Hk.
Qed.

Lemma agree_time_Now : agree eq time_Now time_Now.
Proof.
  intros env w w' (Hc & Hg & Hl & Hf & Hs & Hd). unfold time_Now.
  cbn [fst snd]. rewrite Hc. by repeat split.
Qed.

Lemma agree_time_Since t : agree eq (time_Since t) (time_Since t).
Proof.
  unfold time_Since. eapply agree_bind; [apply agree_time_Now|].
  intros now ? <-. by apply agree_ret.
Qed.

Lemma agree_http_Get url : agree eq (http_Get url) (http_Get url).
Proof.
  intros env w w' (Hc & Hg & Hl & Hf & Hs & Hd). unfold http_Get.
  cbn [fst snd]. rewrite Hg. by repeat split.
Qed.

Lemma agree_db c :
  match c with database.LogEvent _ => False | _ => True end →
  agree eq (db c) (db c).
Proof.
  intros Hc env w w' (? & ? & ? & ? & ? & Hd). unfold db, same_effects.
  cbn [fst snd clockReads httpGets logins fetches saves dbCalls].
  rewrite !unlogged_app, Hd. by repeat split.
Qed.

Lemma agree_logEvent app app' entry entry' :
  agree eq (logEvent app entry) (logEvent app' entry').
Proof.
  intros env w w' (? & ? & ? & ? & ? & Hd).
  unfold logEvent, db, ret, same_effects.
  destruct (logActivity app), (logActivity app');
    cbn [fst snd clockReads httpGets logins fetches saves dbCalls];
    rewrite ?unlogged_app, ?Hd; cbn [unlogged List.filter];
    rewrite ?app_nil_r; by repeat split.
Qed.

Lemma agree_OpenGate c : agree eq (gate.OpenGate c) (gate.OpenGate c).
Proof.
  unfold gate.OpenGate. destruct (String.eqb (gate.triggerURL c) "").
  - by apply agree_ret.
  - eapply agree_bind; [apply agree_http_Get|].
    intros resp ? <-. destruct resp as [e|code]; [by apply agree_ret|].
    destruct (negb (code =? http.StatusOK)); by apply agree_ret.
Qed.

Lemma agree_checkAndOpenGate app log state direction :
  agree eq (checkAndOpenGate (set_logging app log) state direction)
           (checkAndOpenGate app state direction).
Proof.
  unfold checkAndOpenGate.
  eapply agree_bind; [apply agree_time_Since|].
  intros since ? <-.
  change (cooldownDuration (set_logging app log))
    with (cooldownDuration app).
  change (GateController (set_logging app log)) with (GateController app).
  destruct (since <? cooldownDuration app).
  - eapply agree_bind; [apply agree_time_Since|]. intros _ _ _.
    eapply agree_bind; [apply agree_logEvent|]. intros _ _ _.
    by apply agree_ret.
  - eapply agree_bind; [apply agree_OpenGate|].
    intros err ? <-. destruct err as [e|].
    + eapply agree_bind; [apply agree_logEvent|]. intros _ _ _.
      by apply agree_ret.
    + eapply agree_bind; [apply agree_time_Now|]. intros now ? <-.
      eapply agree_bind; [by apply agree_db|]. intros _ _ _.
      eapply agree_bind; [apply agree_logEvent|]. intros _ _ _.
      by apply agree_ret.
Qed.

Lemma agree_handleDeviceConnected app log state toAP fromAP :
  agree eq (handleDeviceConnected (set_logging app log) state toAP fromAP)
           (handleDeviceConnected app state toAP fromAP).
Proof.
  unfold handleDeviceConnected.
  change (gateAP (set_logging app log)) with (gateAP app).
  eapply agree_bind; [apply agree_logEvent|]. intros _ _ _.
  destruct (String.eqb toAP (gateAP app));
    [apply agree_checkAndOpenGate|by apply agree_ret].
Qed.

Lemma agree_handleDeviceRoamed app log state fromAP toAP :
  agree eq (handleDeviceRoamed (set_logging app log) state fromAP toAP)
           (handleDeviceRoamed app state fromAP toAP).
Proof.
  unfold handleDeviceRoamed.
  change (gateAP (set_logging app log)) with (gateAP app).
  eapply agree_bind; [apply agree_logEvent|]. intros _ _ _.
  destruct (String.eqb toAP (gateAP app) || String.eqb fromAP (gateAP app));
    [apply agree_checkAndOpenGate|by apply agree_ret].
Qed.

Lemma agree_pollDevice app log connected mac state :
  agree eq (pollDevice (set_logging app log) connected mac state)
           (pollDevice app connected mac state).
Proof.
  unfold pollDevice.
  change (gateAP (set_logging app log)) with (gateAP app).
  destruct (connected !! mac) as [client|].
  - eapply agree_bind.
    + instantiate (1 := eq).
      destruct (negb (IsConnected state)).
      * destruct (String.eqb (unifi.AP_MAC client) (gateAP app)
                  && (unifi.Uptime client <? 30));
          [apply agree_handleDeviceConnected|].
        destruct (negb (String.eqb (unifi.AP_MAC client) (gateAP app)));
          [apply agree_handleDeviceConnected|by apply agree_ret].
      * destruct (negb (String.eqb (CurrentAP state) (unifi.AP_MAC client)));
          [apply agree_handleDeviceRoamed|by apply agree_ret].
    + intros state' ? <-.
      eapply agree_bind; [apply agree_time_Now|]. intros now ? <-.
      eapply agree_bind; [by apply agree_db|]. intros _ _ _.
      by apply agree_ret.
  - destruct (IsConnected state); [|by apply agree_ret].
    eapply agree_bind; [apply agree_logEvent|]. intros _ _ _.
    eapply agree_bind; [by apply agree_db|]. intros _ _ _.
    by apply agree_ret.
Qed.

Lemma agree_rangeDevices app log connected order :
  ∀ states,
    agree eq (rangeDevices (set_logging app log) connected order states)
             (rangeDevices app connected order states).
Proof.
  induction order as [|mac rest IH]; intros states; cbn [rangeDevices].
  - by apply agree_ret.
  - destruct (states !! mac) as [state|]; [|apply IH].
    eapply agree_bind; [apply agree_pollDevice|].
    intros state' ? <-. apply IH.
Qed.

Lemma agree_checkDevices order app log clients :
  agree (λ a a', a = set_logging a' log)
    (checkDevices order (set_logging app log) clients)
    (checkDevices order app clients).
Proof.
  unfold checkDevices.
  eapply agree_bind; [apply agree_rangeDevices|].
  intros states ? <-. by apply agree_ret.
Qed.

Lemma agree_unifi_GetActiveClients siteID :
  agree eq (unifi_GetActiveClients siteID) (unifi_GetActiveClients siteID).
Proof.
  intros env w w' (Hc & Hg & Hl & Hf & Hs & Hd).
  unfold unifi_GetActiveClients. cbn [fst snd]. rewrite Hf.
  by repeat split.
Qed.

Lemma agree_unifi_Login : agree eq unifi_Login unifi_Login.
Proof.
  intros env w w' (Hc & Hg & Hl & Hf & Hs & Hd).
  unfold unifi_Login. cbn [fst snd]. rewrite Hl. by repeat split.
Qed.

Lemma agree_reauthenticate app log :
  agree (λ r r', r = (set_logging (fst r') log, snd r'))
    (reauthenticateWithBackoff (set_logging app log))
    (reauthenticateWithBackoff app).
Proof.
  unfold reauthenticateWithBackoff.
  change (lastAuthAttempt (set_logging app log)) with (lastAuthAttempt app).
  change (authRetryBackoff (set_logging app log))
    with (authRetryBackoff app).
  change (authRetryCount (set_logging app log)) with (authRetryCount app).
  eapply agree_bind; [apply agree_time_Since|]. intros since ? <-.
  destruct (since <? authRetryBackoff app).
  - eapply agree_bind; [apply agree_time_Since|]. intros since' ? <-.
    by apply agree_ret.
  - eapply agree_bind; [apply agree_time_Now|]. intros now ? <-.
    eapply agree_bind; [apply agree_unifi_Login|]. intros err ? <-.
    destruct err; by apply agree_ret.
Qed.

(** X24.  The activity-logging flag decides what is written to the event
    log and nothing else.  Run with the flag set either way, from worlds
    that differ at most in the event log, a poll cycle reads the clock,
    asks the controller and the gate, and writes device states and trigger
    times to the database in the same way, and ends in the same session
    but for the flag. *)
Theorem pollUniFi_logging (order : list string) (app : App) (log : bool) :
  agree (λ after after', after = set_logging after' log)
    (pollUniFi order (set_logging app log)) (pollUniFi order app).
Proof.
  unfold pollUniFi.
  change (UniFiClient (set_logging app log)) with (UniFiClient app).
  change (config.SiteID (config.UniFi (Config (set_logging app log))))
    with (config.SiteID (config.UniFi (Config app))).
  destruct (negb (UniFiClient app)); [by apply agree_ret|].
  eapply agree_bind; [apply agree_unifi_GetActiveClients|].
  intros r ? <-. destruct r as [clients|err]; [apply agree_checkDevices|].
  destruct (isAuthError err); [|by apply agree_ret].
  eapply agree_bind; [apply agree_reauthenticate|].
  intros [app1 r1] [app1' r1'] [= -> ->]. cbn [fst snd].
  destruct r1'; [by apply agree_ret|].
  eapply agree_bind; [apply agree_unifi_GetActiveClients|].
  intros r ? <-. destruct r as [clients|err'];
    [apply agree_checkDevices|by apply agree_ret].
Qed.

Lemma pollUniFi_logging_witness :
  fst (pollUniFi [household.phone_mac]
         (set_logging scenario.tracking false) (scenario.listed 10)
         scenario.w0)
    = set_logging
        (fst (pollUniFi [household.phone_mac] scenario.tracking
                (scenario.listed 10) household.noted)) false ∧
  same_effects
    (snd (pollUniFi [household.phone_mac]
            (set_logging scenario.tracking false) (scenario.listed 10)
            scenario.w0))
    (snd (pollUniFi [household.phone_mac] scenario.tracking
            (scenario.listed 10) household.noted)).
Proof.
  apply (pollUniFi_logging [household.phone_mac] scenario.tracking false
           (scenario.listed 10) scenario.w0 household.noted).
  by vm_compute.
Defined.
